(** * funcbench: environment construction and the markdown transform

    A shallow embedding of [funcbench/env.go]: the markdown transform
    [formatCommentToMD], the two environment constructors [newLocalEnv]
    and [newGitHubEnv], and the [PostErr] methods, together with the
    properties the specification states about them. *)

From Stdlib Require Import NArith Ascii String.
From stdpp Require Import base list strings pretty gmap.
From Equations Require Import Equations.
From Equations.Prop Require Import Logic.

Local Open Scope string_scope.
Local Open Scope list_scope.

(** ** The part of Go's [strings] and [unicode/utf8] packages the program calls

    A Go string is a sequence of bytes, as a Rocq [string] is. *)

Module Strings.

Definition byte (c : ascii) : N := N_of_ascii c.

Definition inRange (lo hi : N) (c : ascii) : bool :=
  ((lo <=? byte c) && (byte c <=? hi))%N.
Arguments inRange (lo hi)%_N c.

(** A UTF-8 continuation byte. *)
Definition cont (c : ascii) : bool := inRange 0x80 0xBF c.

Definition RuneError : N := 0xFFFD.

Definition low6 (c : ascii) : N := N.land (byte c) 0x3F.

(** [utf8.DecodeRuneInString]: the first rune of [s] and its width in bytes.
    An invalid or truncated encoding decodes to [RuneError] with width 1
    (overlong forms, surrogates and values above U+10FFFF are invalid). *)
Definition DecodeRuneInString (s : string) : N * nat :=
  match s with
  | EmptyString => (RuneError, 0)
  | String b0 t0 =>
    let x0 := byte b0 in
    if (x0 <? 0x80)%N then (x0, 1)
    else if inRange 0xC2 0xDF b0 then
      match t0 with
      | String b1 _ =>
        if cont b1
        then (N.lor (N.shiftl (N.land x0 0x1F) 6) (low6 b1), 2)
        else (RuneError, 1)
      | EmptyString => (RuneError, 1)
      end
    else if inRange 0xE0 0xEF b0 then
      match t0 with
      | String b1 (String b2 _) =>
        let lo := if (x0 =? 0xE0)%N then 0xA0%N else 0x80%N in
        let hi := if (x0 =? 0xED)%N then 0x9F%N else 0xBF%N in
        if inRange lo hi b1 && cont b2
        then (N.lor (N.shiftl (N.land x0 0x0F) 12)
                (N.lor (N.shiftl (low6 b1) 6) (low6 b2)), 3)
        else (RuneError, 1)
      | _ => (RuneError, 1)
      end
    else if inRange 0xF0 0xF4 b0 then
      match t0 with
      | String b1 (String b2 (String b3 _)) =>
        let lo := if (x0 =? 0xF0)%N then 0x90%N else 0x80%N in
        let hi := if (x0 =? 0xF4)%N then 0x8F%N else 0xBF%N in
        if inRange lo hi b1 && cont b2 && cont b3
        then (N.lor (N.shiftl (N.land x0 0x07) 18)
                (N.lor (N.shiftl (low6 b1) 12)
                   (N.lor (N.shiftl (low6 b2) 6) (low6 b3))), 4)
        else (RuneError, 1)
      | _ => (RuneError, 1)
      end
    else (RuneError, 1)
  end.

(** [unicode.IsSpace]: the Unicode White_Space property. *)
Definition IsSpace (r : N) : bool :=
  ((9 <=? r) && (r <=? 13) || (r =? 0x20) || (r =? 0x85) || (r =? 0xA0)
   || (r =? 0x1680) || (0x2000 <=? r) && (r <=? 0x200A)
   || (r =? 0x2028) || (r =? 0x2029) || (r =? 0x202F) || (r =? 0x205F)
   || (r =? 0x3000))%N.

(** For every byte of [s], whether it belongs to a white-space rune. [skip]
    counts the bytes of the current rune still to come and [sp] is that
    rune's class. *)
Fixpoint spaceMask (skip : nat) (sp : bool) (s : string) : list bool :=
  match s with
  | EmptyString => []
  | String _ s' =>
    match skip with
    | S k => sp :: spaceMask k sp s'
    | O =>
      let '(r, w) := DecodeRuneInString s in
      IsSpace r :: spaceMask (pred w) (IsSpace r) s'
    end
  end.

(** The field collected so far, if there is one. *)
Definition emit (cur : string) : list string :=
  if decide (cur = "") then [] else [cur].

Fixpoint fieldsGo (cur : string) (s : string) (mask : list bool) : list string :=
  match s, mask with
  | String c s', b :: mask' =>
    if b : bool then emit cur ++ fieldsGo "" s' mask'
    else fieldsGo (cur +:+ String c "") s' mask'
  | _, _ => emit cur
  end.

(** [strings.Fields]: the maximal runs of non-white-space runes of [s], in
    order. (Go takes a byte-wise path when [s] is ASCII; the result is the
    same as that of the rune-wise walk.) *)
Definition Fields (s : string) : list string :=
  fieldsGo "" s (spaceMask 0 false s).

(** [strings.HasPrefix]. *)
Definition HasPrefix (s pre : string) : bool := String.prefix pre s.

(** [strings.Contains]: [substr] occurs in [s]. *)
Fixpoint Contains (s substr : string) : bool :=
  HasPrefix s substr ||
  match s with
  | EmptyString => false
  | String _ s' => Contains s' substr
  end.

(** [strings.Join]. *)
Fixpoint Join (elems : list string) (sep : string) : string :=
  match elems with
  | [] => ""
  | [x] => x
  | x :: rest => x +:+ sep +:+ Join rest sep
  end.

Fixpoint splitGo (sep : string) (skip : nat) (cur : string) (s : string)
  : list string :=
  match s with
  | EmptyString => [cur]
  | String c s' =>
    match skip with
    | S k => splitGo sep k cur s'
    | O =>
      if HasPrefix s sep
      then cur :: splitGo sep (pred (String.length sep)) "" s'
      else splitGo sep 0 (cur +:+ String c "") s'
    end
  end.

(** [strings.Split] for a non-empty separator: the pieces of [s] between
    the occurrences of [sep], one more than there are occurrences. *)
Definition Split (s sep : string) : list string := splitGo sep 0 "" s.

End Strings.

Import Strings.

(** The newline byte, Go's ["\n"]. *)
Definition LF : string := String "010"%char "".

(** The string has a newline byte in it. *)
Fixpoint hasLF (s : string) : bool :=
  match s with
  | EmptyString => false
  | String c s' => bool_decide (c = "010"%char) || hasLF s'
  end.

(** The first [k] bytes of the string are there and are continuation
    bytes. *)
Fixpoint contBytes (k : nat) (s : string) : Prop :=
  match k, s with
  | O, _ => True
  | S k', String b s' => cont b = true ∧ contBytes k' s'
  | S _, EmptyString => False
  end.

(** ** The markdown transform *)

Definition separator : string := "|-|-|-|-|".

(** [append(tableContent[:i+1], append([]string{"|-|-|-|-|"},
    tableContent[i+1:]...)...)]: the inner [append] copies the tail before
    the outer one writes, so the result is the table with the separator row
    at index [i+1]. *)
Definition insertSeparator (i : nat) (tableContent : list string) : list string :=
  take (i + 1) tableContent ++ ([separator] ++ drop (i + 1) tableContent).

(** The body of the [for] loop at index [i], where [e] is [tableContent[i]]:
    the [switch] in the order of the source, then [tableContent[i] = e]. *)
Definition body (i : nat) (e : string) (tableContent : list string) : list string :=
  if decide (e = "") then
    <[i := e]> tableContent
  else if Contains e "old ns/op" then
    <[i := "| Benchmark | Old ns/op | New ns/op | Delta |"]>
      (insertSeparator i tableContent)
  else if Contains e "old MB/s" then
    <[i := "| Benchmark | Old MB/s | New MB/s | Speedup |"]>
      (insertSeparator i tableContent)
  else if Contains e "old allocs" then
    <[i := "| Benchmark | Old allocs | New allocs | Delta |"]>
      (insertSeparator i tableContent)
  else if Contains e "old bytes" then
    <[i := "| Benchmark | Old bytes | New bytes | Delta |"]>
      (insertSeparator i tableContent)
  else
    <[i := Join (Fields e) "|"]> tableContent.

(** A line on which one of the four header cases of the [switch] fires. *)
Definition isHeader (e : string) : bool :=
  Contains e "old ns/op" || Contains e "old MB/s" ||
  Contains e "old allocs" || Contains e "old bytes".

(** What is left for the loop to do from index [i] on: the lines not yet
    visited, a header line counting twice more because of the row it
    inserts. *)
Definition todo (i : nat) (tableContent : list string) : nat :=
  2 * length (filter (λ e, isHeader e = true) (drop i tableContent))
  + (length tableContent - i).

(** The loop [for i := 0; i <= len(tableContent)-1; i++ { ... }] from index
    [i] on. The condition holds exactly when [tableContent[i]] exists, so the
    guard and the read [e := tableContent[i]] are one lookup. The table
    grows while the loop runs; [todo] is what makes it stop. *)
Equations? loop (i : nat) (tableContent : list string) : list string
  by wf (todo i tableContent) lt :=
  loop i tableContent with inspect (tableContent !! i) := {
    | exist _ (Some e) He := loop (S i) (body i e tableContent)
    | exist _ None _ := tableContent }.
Proof.
  pose proof (lookup_lt_Some _ _ _ He) as Hi.
  assert (Hd : drop i tableContent = e :: drop (S i) tableContent)
    by (by apply drop_S).
  assert (Hsep : isHeader separator = false) by reflexivity.
  unfold todo. rewrite Hd, filter_cons.
  assert (Hplain : ∀ x,
    2 * length (filter (λ e, isHeader e = true)
                  (drop (S i) (<[i:=x]> tableContent)))
      + (length (<[i:=x]> tableContent) - S i)
    < 2 * length (filter (λ e, isHeader e = true) (drop (S i) tableContent))
      + (length tableContent - i)).
  { intros x. rewrite drop_insert_lt, length_insert by lia. lia. }
  assert (Hhdr : ∀ x,
    2 * length (filter (λ e, isHeader e = true)
                  (drop (S i) (<[i:=x]> (insertSeparator i tableContent))))
      + (length (<[i:=x]> (insertSeparator i tableContent)) - S i)
    < 2 * length (e :: filter (λ e, isHeader e = true)
                         (drop (S i) tableContent))
      + (length tableContent - i)).
  { intros x. rewrite drop_insert_lt, length_insert by lia.
    unfold insertSeparator. replace (i + 1) with (S i) by lia.
    rewrite drop_app_length' by (rewrite length_take; lia).
    rewrite length_app, length_take. cbn [app length]. rewrite length_drop.
    rewrite filter_cons, decide_False by (rewrite Hsep; done).
    cbn [length]. lia. }
  unfold body, isHeader in *.
  destruct (decide (e = "")) as [->|_]; [cbn; apply Hplain|].
  destruct (Contains e "old ns/op"); [rewrite decide_True by done; apply Hhdr|].
  destruct (Contains e "old MB/s"); [rewrite decide_True by done; apply Hhdr|].
  destruct (Contains e "old allocs"); [rewrite decide_True by done; apply Hhdr|].
  destruct (Contains e "old bytes"); [rewrite decide_True by done; apply Hhdr|].
  rewrite decide_False by done. apply Hplain.
Qed.

Definition formatCommentToMD (rawTable : string) : string :=
  let tableContent := Split rawTable LF in
  Join (loop 0 tableContent) LF.

(** *** The transform as the specification words it

    Line by line: a blank line is passed through, a line with a metric
    marker becomes its markdown header followed by a separator row, any
    other line has its fields joined by pipes. *)

Definition markers : list (string * string) :=
  [ ("old ns/op",  "| Benchmark | Old ns/op | New ns/op | Delta |");
    ("old MB/s",   "| Benchmark | Old MB/s | New MB/s | Speedup |");
    ("old allocs", "| Benchmark | Old allocs | New allocs | Delta |");
    ("old bytes",  "| Benchmark | Old bytes | New bytes | Delta |") ].

(** The header of the first marker, in the order of the table, that occurs
    in the line. *)
Definition headerFor (e : string) : option string :=
  snd <$> List.find (λ m, Contains e (fst m)) markers.

(** The text a line is replaced by. *)
Definition transformLine (e : string) : string :=
  if decide (e = "") then e
  else match headerFor e with
       | Some h => h
       | None => Join (Fields e) "|"
       end.

(** The rows inserted below a line: a separator row below a header. *)
Definition inserted (e : string) : list string :=
  if isHeader e then [separator] else [].

Definition mdLine (e : string) : list string :=
  transformLine e :: inserted e.

Definition transformLines (lines : list string) : list string :=
  flat_map mdLine lines.

(** A blank line is the line the first case of the [switch] passes through. *)
Definition blank (e : string) : Prop := e = "".

Definition nonBlankLines (lines : list string) : nat :=
  length (filter (λ e, ¬ blank e) lines).

(** A line with something other than white space on it. *)
Definition hasField (e : string) : Prop := Fields e ≠ [].

(** The number of lines on which a header case fires. *)
Definition headerCount (lines : list string) : nat :=
  length (filter (λ e, isHeader e = true) lines).

(** Where the line at index [i] of the input ends up: one place further
    down for every header above it. *)
Definition outIndex (lines : list string) (i : nat) : nat :=
  i + headerCount (take i lines).


(** ** Errors

    The sentinel errors of go-git that the program meets, the errors made
    by [errors.New] (and those of the libraries and the operating system,
    which the program only passes on), and the wrapping of [errors.Wrap]
    and [errors.Wrapf]. Go compares an error with a sentinel by identity:
    an [errorsNew] with the same text is a different error. *)

Inductive error : Type :=
  | ErrRepositoryAlreadyExists
  | ErrRepositoryNotExists
  | NoErrAlreadyUpToDate
  | errorsNew (msg : string)
  | errorsWrap (cause : error) (msg : string).

#[global] Instance error_eq_dec : EqDecision error.
Proof. solve_decision. Defined.

(** The [Error()] text. *)
Fixpoint Error (err : error) : string :=
  match err with
  | ErrRepositoryAlreadyExists => "repository already exists"
  | ErrRepositoryNotExists => "repository does not exist"
  | NoErrAlreadyUpToDate => "already up-to-date"
  | errorsNew msg => msg
  | errorsWrap cause msg => msg +:+ ": " +:+ Error cause
  end.

(** [errors.Cause]: the innermost error of a chain of wraps. *)
Fixpoint Cause (err : error) : error :=
  match err with
  | errorsWrap cause _ => Cause cause
  | _ => err
  end.

(** ** The world outside the program *)

Record Repository : Type := { location : string }.
Record Worktree : Type := { wtRepository : Repository }.
Inductive Logger : Type := mkLogger.

(** The fields of the issue-comment payload the program dereferences; a
    field the payload lacks is a nil pointer. *)
Record IssueCommentEvent : Type := {
  repoName : option string;       (* GetRepo().Name *)
  ownerLogin : option string;     (* GetRepo().Owner.Login *)
  issueNumber : option Z          (* GetIssue().Number *)
}.

Inductive WebHookEvent : Type :=
  | IssueComment (issue : IssueCommentEvent)
  | OtherEvent.

(** What a call that returns [(T, error)] gives back. *)
Inductive result (A : Type) : Type :=
  | Ok (a : A)
  | Err (err : error)
  | Panic.
Arguments Ok {A} a.
Arguments Err {A} err.
Arguments Panic {A}.

(** The answers of the file system, the process environment, go-git and the
    GitHub API to the calls of the program. An [option error] is Go's
    [error], [None] being [nil]. An answer depends on the arguments of the
    call only: one construction reads absolute paths and makes no call
    twice whose answer an earlier call could have changed. *)
Record World : Type := {
  ReadFile : string → result string;
  Getenv : string → string;
  Chdir : string → option error;
  Setenv : string → string → option error;
  filepathJoin : string → string → string;
  ParseWebHook : string → string → result WebHookEvent;
  PlainCloneContext : string → string → result Repository;
  RepoWorktree : Repository → result Worktree;
  FetchContext : Repository → option error;
  Checkout : Worktree → string → option error;
  CreateComment : string → string → Z → string → option error;
  (* the working directory, outermost component first, and the directories
     that hold a repository *)
  workingDirectory : list string;
  versionControlled : list string → bool
}.

(** What the program does to the world, in order. *)
Inductive Effect : Type :=
  | DidChdir (dir : string)
  | DidSetenv (key value : string)
  | DidClone (dir url : string)
  | DidFetch (r : Repository)
  | DidCheckout (wt : Worktree) (branch : string)
  | DidComment (owner repo : string) (number : Z) (body : string).

#[global] Instance Repository_eq_dec : EqDecision Repository.
Proof. solve_decision. Defined.
#[global] Instance Worktree_eq_dec : EqDecision Worktree.
Proof. solve_decision. Defined.
#[global] Instance Effect_eq_dec : EqDecision Effect.
Proof. solve_decision. Defined.

(** A computation that returns a value, returns an error or panics, and
    adds to the list of effects. *)
Definition M (A : Type) : Type := list Effect → result A * list Effect.

#[global] Instance M_ret : MRet M := λ A a past, (Ok a, past).
#[global] Instance M_bind : MBind M := λ A B k m past,
  match m past with
  | (Ok a, past') => k a past'
  | (Err err, past') => (Err err, past')
  | (Panic, past') => (Panic, past')
  end.

(** [return nil, err]. *)
Definition throw {A} (err : error) : M A := λ past, (Err err, past).

Definition did (ev : Effect) : M unit := λ past, (Ok (), past ++ [ev]).

(** [x, err := f(); if err != nil { return nil, err }]. *)
Definition getOrReturn {A} (r : result A) : M A := λ past, (r, past).

(** [if err := f(); err != nil { return nil, err }]. *)
Definition okOrReturn (r : option error) : M unit :=
  match r with
  | Some err => throw err
  | None => mret ()
  end.

(** Dereferencing a pointer: a nil pointer panics. *)
Definition deref {A} (p : option A) : M A :=
  match p with
  | Some a => mret a
  | None => λ past, (Panic, past)
  end.

(** [errors.Wrap(err, msg)] on the error path of [m]. *)
Definition wrapping {A} (msg : string) (m : M A) : M A := λ past,
  match m past with
  | (Err err, past') => (Err (errorsWrap err msg), past')
  | other => other
  end.

(** ** Environments *)

Record environment : Type := {
  logger : Logger;
  benchFunc : string;
  compareTarget : string;
  isRaceEnabled : bool;
  home : string
}.

Record Local : Type := {
  Local_environment : environment;
  Local_repo : Repository
}.

Record gitHubClient : Type := {
  owner : string;
  repo : string;
  latestCommitHash : string;
  prNumber : Z;
  token : string                  (* the client authenticated with it *)
}.

Record GitHub : Type := {
  GitHub_environment : environment;
  GitHub_repo : Repository;
  client : gitHubClient;
  logLink : string
}.

(** The two implementations of the [Environment] interface. *)
Inductive Environment : Type :=
  | EnvLocal (l : Local)
  | EnvGitHub (g : GitHub).

Definition embedded (env : Environment) : environment :=
  match env with
  | EnvLocal l => Local_environment l
  | EnvGitHub g => GitHub_environment g
  end.

Definition IsRaceEnabled (env : Environment) : bool :=
  isRaceEnabled (embedded env).


(** The directory itself and its ancestors, innermost first. *)
Definition ancestors (dir : list string) : list (list string) :=
  (λ n, take n dir) <$> reverse (seq 0 (S (length dir))).

Record PlainOpenOptions : Type := { DetectDotGit : bool }.

(** Modelled from the spec: go-git's [git.PlainOpenWithOptions] is not part
    of the repository. With [DetectDotGit] it opens the repository of the
    directory or of its nearest version-controlled ancestor, and fails with
    the not-a-repository error, [git.ErrRepositoryNotExists], when there is
    none. *)
Definition PlainOpenWithOptions (w : World) (dir : list string)
    (o : PlainOpenOptions) : result Repository :=
  let candidates := if DetectDotGit o then ancestors dir else [dir] in
  match List.find (versionControlled w) candidates with
  | Some d => Ok {| location := Join d "/" |}
  | None => Err ErrRepositoryNotExists
  end.

(** [newLocalEnv]; ["."] is the working directory. *)
Definition newLocalEnv (w : World) (e : environment) : M Environment :=
  r ← getOrReturn (PlainOpenWithOptions w (workingDirectory w)
             {| DetectDotGit := true |});
  mret (EnvLocal {| Local_environment := e; Local_repo := r |}).

(** [Local.PostErr]: a no-op, as its comment in the source says. *)
Definition Local_PostErr (l : Local) (err : string) : M (option error) :=
  mret None.

Definition newGitHubClient (w : World) (event : IssueCommentEvent)
    : M gitHubClient :=
  let tok := Getenv w "GITHUB_TOKEN" in
  login ← deref (ownerLogin event);
  name ← deref (repoName event);
  number ← deref (issueNumber event);
  mret {| owner := login; repo := name; latestCommitHash := Getenv w "GITHUB_SHA";
          prNumber := number; token := tok |}.

Definition postComment (w : World) (c : gitHubClient) (comment : string)
    : M (option error) :=
  _ ← did (DidComment (owner c) (repo c) (prNumber c) comment);
  mret (CreateComment w (owner c) (repo c) (prNumber c) comment).

(** [GitHub.PostErr]. *)
Definition GitHub_PostErr (w : World) (g : GitHub) (err : string)
    : M (option error) :=
  r ← postComment w (client g) (err +:+ ". Logs: " +:+ logLink g);
  match r with
  | Some e => mret (Some (errorsWrap e "posting err"))
  | None => mret None
  end.

(** [PostErr] through the interface. *)
Definition PostErr (w : World) (env : Environment) (err : string)
    : M (option error) :=
  match env with
  | EnvLocal l => Local_PostErr l err
  | EnvGitHub g => GitHub_PostErr w g err
  end.

(** The message of the [errors.Wrapf] of both failure paths. *)
Definition postCommentFailed (pErr : error) : string :=
  "posting a comment for `checkout` command execution error; postComment err:"
  +:+ Error pErr.

(** [fmt.Sprintf("https://github.com/%s/%s.git", login, name)]. *)
Definition cloneURL (login name : string) : string :=
  "https://github.com/" +:+ login +:+ "/" +:+ name +:+ ".git".

(** [fmt.Sprintf("Full logs at: https://github.com/%s/%s/commit/%s/checks",
    owner, repo, latestCommitHash)]. *)
Definition fullLogsAt (c : gitHubClient) : string :=
  "Full logs at: https://github.com/" +:+ owner c +:+ "/" +:+ repo c
  +:+ "/commit/" +:+ latestCommitHash c +:+ "/checks".

(** [fmt.Sprintf("pull/%d/head:pullrequest", number)]. *)
Definition pullBranch (number : Z) : string :=
  "pull/" +:+ pretty number +:+ "/head:pullrequest".

Definition newGitHubEnv (w : World) (lg : Logger) (eventFilePath : string)
    : M Environment :=
  data ← getOrReturn (ReadFile w eventFilePath);
  event ← getOrReturn (ParseWebHook w "issue_comment" data);
  _ ← did (DidChdir (Getenv w "GITHUB_WORKSPACE"));
  _ ← okOrReturn (Chdir w (Getenv w "GITHUB_WORKSPACE"));
  issue ← match event with
          | IssueComment issue => mret issue
          | OtherEvent => throw (errorsNew "only issue_comment event is supported")
          end;
  name ← deref (repoName issue);
  login ← deref (ownerLogin issue);
  _ ← did (DidClone name (cloneURL login name));
  (* If repo already exists, git.ErrRepositoryAlreadyExists will be
     returned. *)
  r ← wrapping "git clone" (getOrReturn (PlainCloneContext w name (cloneURL login name)));
  ghClient ← newGitHubClient w issue;
  benchFunc ← getOrReturn (ReadFile w "/github/home/commentMonitor/REGEX");
  raceArgument ← getOrReturn (ReadFile w "/github/home/commentMonitor/RACE");
  compareTarget ← getOrReturn (ReadFile w "/github/home/commentMonitor/BRANCH");
  let dir := filepathJoin w (Getenv w "GITHUB_WORKSPACE") (repo ghClient) in
  _ ← did (DidChdir dir);
  _ ← wrapping "changing to GITHUB_WORKSPACE dir" (okOrReturn (Chdir w dir));
  let g := {|
    GitHub_environment := {|
      logger := lg;
      benchFunc := benchFunc;
      compareTarget := compareTarget;
      isRaceEnabled := bool_decide (raceArgument ≠ "-no-race");
      home := Getenv w "HOME" |};
    GitHub_repo := r;
    client := ghClient;
    logLink := fullLogsAt ghClient |} in
  _ ← did (DidSetenv "GO111MODULE" "on");
  _ ← okOrReturn (Setenv w "GO111MODULE" "on");
  _ ← did (DidSetenv "CGO_ENABLED" "0");
  _ ← okOrReturn (Setenv w "CGO_ENABLED" "0");
  wt ← getOrReturn (RepoWorktree w (GitHub_repo g));
  _ ← did (DidFetch r);
  _ ← match FetchContext w r with
      | Some err =>
        if decide (err ≠ NoErrAlreadyUpToDate) then
          pErr ← GitHub_PostErr w g "Switch (fetch) to a pull request branch failed";
          match pErr with
          | Some pErr => throw (errorsWrap err (postCommentFailed pErr))
          | None => throw err
          end
        else mret ()
      | None => mret ()
      end;
  number ← deref (issueNumber issue);
  _ ← did (DidCheckout wt (pullBranch number));
  _ ← match Checkout w wt (pullBranch number) with
      | Some err =>
        pErr ← GitHub_PostErr w g "Switch to a pull request branch failed";
        match pErr with
        | Some pErr => throw (errorsWrap err (postCommentFailed pErr))
        | None => throw err
        end
      | None => mret ()
      end;
  mret (EnvGitHub g).

(** *** Names for the statements about [newGitHubEnv] *)

(** The client [newGitHubClient] builds from a payload with these fields. *)
Definition clientOf (w : World) (login name : string) (number : Z)
    : gitHubClient :=
  {| owner := login; repo := name; latestCommitHash := Getenv w "GITHUB_SHA";
     prNumber := number; token := Getenv w "GITHUB_TOKEN" |}.

(** The environment [newGitHubEnv] builds from these values. *)
Definition constructed (w : World) (lg : Logger) (login name : string)
    (number : Z) (r : Repository) (bench race target : string) : GitHub :=
  {| GitHub_environment := {|
       logger := lg;
       benchFunc := bench;
       compareTarget := target;
       isRaceEnabled := bool_decide (race ≠ "-no-race");
       home := Getenv w "HOME" |};
     GitHub_repo := r;
     client := clientOf w login name number;
     logLink := fullLogsAt (clientOf w login name number) |}.

(** What [newGitHubEnv] has done when it comes to the fetch. *)
Definition setupEffects (w : World) (login name : string) : list Effect :=
  [ DidChdir (Getenv w "GITHUB_WORKSPACE");
    DidClone name (cloneURL login name);
    DidChdir (filepathJoin w (Getenv w "GITHUB_WORKSPACE") name);
    DidSetenv "GO111MODULE" "on";
    DidSetenv "CGO_ENABLED" "0" ].

(** Every step of [newGitHubEnv] before the fetch succeeds, with these
    results. *)
Record SetupSucceeds (w : World) (eventFilePath login name : string)
    (number : Z) (r : Repository) (wt : Worktree) (bench race target : string)
    : Prop := {
  setup_event : ∃ data,
    ReadFile w eventFilePath = Ok data ∧
    ParseWebHook w "issue_comment" data =
      Ok (IssueComment {| repoName := Some name; ownerLogin := Some login;
                          issueNumber := Some number |});
  setup_workspace : Chdir w (Getenv w "GITHUB_WORKSPACE") = None;
  setup_clone : PlainCloneContext w name (cloneURL login name) = Ok r;
  setup_regex : ReadFile w "/github/home/commentMonitor/REGEX" = Ok bench;
  setup_race : ReadFile w "/github/home/commentMonitor/RACE" = Ok race;
  setup_branch : ReadFile w "/github/home/commentMonitor/BRANCH" = Ok target;
  setup_chdir :
    Chdir w (filepathJoin w (Getenv w "GITHUB_WORKSPACE") name) = None;
  setup_module : Setenv w "GO111MODULE" "on" = None;
  setup_cgo : Setenv w "CGO_ENABLED" "0" = None;
  setup_worktree : RepoWorktree w r = Ok wt
}.

(** The comment [GitHub.PostErr] posts for the error text [err]. *)
Definition errComment (g : GitHub) (err : string) : Effect :=
  DidComment (owner (client g)) (repo (client g)) (prNumber (client g))
    (err +:+ ". Logs: " +:+ logLink g).

(** The error returned when the fetch or the checkout failed with [err] and
    posting the comment about it failed with [perr]. *)
Definition bothErrors (err perr : error) : error :=
  errorsWrap err (postCommentFailed (errorsWrap perr "posting err")).

(** *** A world to run the constructors in

    A pull request 42 of prometheus/prometheus; the clone, the fetch, the
    checkout and the comment answer as given, the race file holds [race],
    every other call succeeds. *)
Definition sampleWorld (clone : result Repository)
    (fetch checkout comment : option error) (race : string)
    (dotGit : list string → bool) : World :=
  {| ReadFile := λ path,
       if decide (path = "/github/home/commentMonitor/RACE") then Ok race
       else if decide (path = "/github/home/commentMonitor/REGEX")
            then Ok "BenchmarkX"
       else if decide (path = "/github/home/commentMonitor/BRANCH")
            then Ok "master"
       else Ok "{}";
     Getenv := λ key,
       if decide (key = "GITHUB_WORKSPACE") then "/github/workspace"
       else if decide (key = "HOME") then "/github/home"
       else key;
     Chdir := λ _, None;
     Setenv := λ _ _, None;
     filepathJoin := λ a b, a +:+ "/" +:+ b;
     ParseWebHook := λ _ _,
       Ok (IssueComment {| repoName := Some "prometheus";
                           ownerLogin := Some "prometheus";
                           issueNumber := Some 42%Z |});
     PlainCloneContext := λ _ _, clone;
     RepoWorktree := λ r, Ok {| wtRepository := r |};
     FetchContext := λ _, fetch;
     Checkout := λ _ _, checkout;
     CreateComment := λ _ _ _ _, comment;
     workingDirectory := ["home"; "dev"; "prometheus"; "tsdb"];
     versionControlled := dotGit |}.

(** The world in which the clone finds the repository already there. *)
Definition cloneExistsWorld : World :=
  sampleWorld (Err ErrRepositoryAlreadyExists) None None None "" (λ _, true).

Definition sampleRepository : Repository :=
  {| location := "https://github.com/prometheus/prometheus.git" |}.

Definition sampleWorktree : Worktree := {| wtRepository := sampleRepository |}.

(** The world in which the fetch fails and so does posting the comment. *)
Definition fetchFailsWorld : World :=
  sampleWorld (Ok sampleRepository)
    (Some (errorsNew "authentication required")) None
    (Some (errorsNew "401 Bad credentials")) "" (λ _, true).

(** The world in which there is nothing to fetch, benchmarks run without
    the race detector, and every call succeeds. *)
Definition upToDateWorld : World :=
  sampleWorld (Ok sampleRepository) (Some NoErrAlreadyUpToDate) None None
    "-no-race" (λ _, true).

(** A table as the renderer writes it, and one with a line of a single
    space below the header. *)
Definition sampleTable : string :=
  "benchmark     old ns/op  new ns/op  delta" +:+ LF +:+
  "BenchmarkX-8  120        60.2       -50.00%" +:+ LF.

Definition spaceLineTable : string :=
  "benchmark     old ns/op  new ns/op  delta" +:+ LF +:+ " ".

(** ** More of the package: what the further properties speak of *)

(** One of the six ASCII white-space bytes: tab, newline, vertical tab, form
    feed, carriage return, space. *)
Definition asciiSpace (c : ascii) : bool :=
  inRange 9 13 c || (byte c =? 32)%N.

Fixpoint hasSpaceByte (s : string) : bool :=
  match s with
  | EmptyString => false
  | String c s' => asciiSpace c || hasSpaceByte s'
  end.

(** The byte [c] occurs in the string. *)
Fixpoint hasByte (c : ascii) (s : string) : bool :=
  match s with
  | EmptyString => false
  | String x s' => bool_decide (x = c) || hasByte c s'
  end.

Definition isComment (ev : Effect) : bool :=
  match ev with
  | DidComment _ _ _ _ => true
  | _ => false
  end.

(** [GitHub.PostResults]. [Render] and the type [BenchCmp] are declared in
    another file of the package and are parameters here: [Render cmps x y
    target] is the text that [Render(&b, cmps, x, y, target)] writes to the
    buffer. *)
Definition GitHub_PostResults {BenchCmp : Type}
    (Render : list BenchCmp → bool → bool → string → string)
    (w : World) (g : GitHub) (cmps : list BenchCmp) : M (option error) :=
  let b := Render cmps false false (compareTarget (GitHub_environment g)) in
  postComment w (client g) (formatCommentToMD b).

(** An error the world gave as an answer to some call other than the
    posting of a comment. *)
Definition answered (w : World) (x : error) : Prop :=
  (∃ path, ReadFile w path = Err x) ∨
  (∃ kind data, ParseWebHook w kind data = Err x) ∨
  (∃ dir, Chdir w dir = Some x) ∨
  (∃ key value, Setenv w key value = Some x) ∨
  (∃ dir url, PlainCloneContext w dir url = Err x) ∨
  (∃ r, RepoWorktree w r = Err x) ∨
  (∃ r, FetchContext w r = Some x) ∨
  (∃ wt branch, Checkout w wt branch = Some x).

(** The world in which the payload has no issue number. *)
Definition noNumberWorld : World :=
  {| ReadFile := ReadFile upToDateWorld;
     Getenv := Getenv upToDateWorld;
     Chdir := Chdir upToDateWorld;
     Setenv := Setenv upToDateWorld;
     filepathJoin := filepathJoin upToDateWorld;
     ParseWebHook := λ _ _,
       Ok (IssueComment {| repoName := Some "prometheus";
                           ownerLogin := Some "prometheus";
                           issueNumber := None |});
     PlainCloneContext := PlainCloneContext upToDateWorld;
     RepoWorktree := RepoWorktree upToDateWorld;
     FetchContext := FetchContext upToDateWorld;
     Checkout := Checkout upToDateWorld;
     CreateComment := CreateComment upToDateWorld;
     workingDirectory := workingDirectory upToDateWorld;
     versionControlled := versionControlled upToDateWorld |}.

(** ** The cluster provider of [pkg/provider/kind] *)

Module Kind.

(** The fields of the [KIND] struct that the cluster operations read. *)
Record KIND : Type := {
  DeploymentFiles : list string;
  DeploymentVars : gmap string string
}.

(** The answers of the kind cluster provider. *)
Record Provider : Type := {
  Create : string → string → option error;
  Delete : string → string → option error
}.

(** The calls made to the provider, in order. *)
Inductive Call : Type :=
  | Created (clusterName config : string)
  | Deleted (clusterName kubeconfig : string).

(** How an operation ends: it returns, or [log.Fatalf] prints a message and
    ends the process. *)
Inductive exit (A : Type) : Type :=
  | Returned (a : A)
  | Fatal (msg : string).
Arguments Returned {A} a.
Arguments Fatal {A} msg.

(** The loop [for _, deployment := range c.DeploymentFiles] of
    [ClusterCreate]. *)
Fixpoint createEach (p : Provider) (clusterName : string)
    (files : list string) (made : list Call)
    : exit (option error) * list Call :=
  match files with
  | [] => (Returned None, made)
  | deployment :: rest =>
    match Create p clusterName deployment with
    | Some err =>
      (Fatal ("creating cluster err:" +:+ Error err),
       made ++ [Created clusterName deployment])
    | None =>
      createEach p clusterName rest (made ++ [Created clusterName deployment])
    end
  end.

Definition ClusterCreate (p : Provider) (c : KIND) (made : list Call)
    : exit (option error) * list Call :=
  match DeploymentVars c !! "CLUSTER_NAME" with
  | None =>
    (Returned (Some (errorsNew "missing required CLUSTER_NAME variable")), made)
  | Some clusterName => createEach p clusterName (DeploymentFiles c) made
  end.

Definition ClusterDelete (p : Provider) (c : KIND) (made : list Call)
    : exit (option error) * list Call :=
  match DeploymentVars c !! "CLUSTER_NAME" with
  | None =>
    (Returned (Some (errorsNew "missing required CLUSTER_NAME variable")), made)
  | Some clusterName =>
    match Delete p clusterName "/home/raj/.kube/config" with
    | Some err =>
      (Fatal ("creating cluster err:" +:+ Error err),
       made ++ [Deleted clusterName "/home/raj/.kube/config"])
    | None =>
      (Returned None, made ++ [Deleted clusterName "/home/raj/.kube/config"])
    end
  end.

(** A provider that refuses the configuration file named [bad]. *)
Definition refusing (bad : string) : Provider :=
  {| Create := λ _ config,
       if decide (config = bad) then Some (errorsNew "invalid config")
       else None;
     Delete := λ _ _, None |}.

Definition sampleKIND : KIND :=
  {| DeploymentFiles := ["a.yaml"; "b.yaml"; "c.yaml"];
     DeploymentVars := {["CLUSTER_NAME" := "kind-1"]} |}.

End Kind.

(** *** Proof steps *)

(** Running [newGitHubEnv] step by step. *)
Ltac run_steps :=
  unfold newGitHubEnv, newGitHubClient, GitHub_PostErr, postComment,
    newLocalEnv, Local_PostErr;
  unfold mbind, M_bind, mret, M_ret, getOrReturn, okOrReturn, did, deref, wrapping,
    throw;
  cbn beta iota zeta.

Ltac use_setup H :=
  destruct H as [(? & Hread & Hparse) Hws Hclone Hregex Hrace Hbranch
                   Hchdir Hmod Hcgo Hwt];
  run_steps;
  rewrite Hread, Hparse; cbn; rewrite Hws; cbn; rewrite Hclone; cbn;
  rewrite Hregex, Hrace, Hbranch; cbn; rewrite Hchdir; cbn;
  rewrite Hmod; cbn; rewrite Hcgo; cbn; rewrite Hwt; cbn.

Ltac tidy_effects := rewrite <- ?app_assoc; cbn [app]; try reflexivity.

Ltac unfold_names :=
  unfold errComment, constructed, clientOf, fullLogsAt in *; cbn in *.

(** Using what the API answered to the comment the goal posts. *)
Ltac use_posted H :=
  match type of H with
  | _ = ?v =>
    match goal with
    | |- context [CreateComment ?w ?o ?r ?n ?x] =>
      replace (CreateComment w o r n x) with v by (symmetry; exact H)
    end
  end.

(** * Properties *)

Example Fields_ex :
  Fields "  BenchmarkX-8   120   60.2  -50.00% " =
  ["BenchmarkX-8"; "120"; "60.2"; "-50.00%"].
Proof. reflexivity. Qed.

Example Split_ex :
  Split ("a" +:+ LF +:+ "b" +:+ LF +:+ LF) LF = ["a"; "b"; ""; ""].
Proof. reflexivity. Qed.

Example formatCommentToMD_ex :
  formatCommentToMD
    ("benchmark     old ns/op  new ns/op  delta" +:+ LF +:+
     "BenchmarkX-8  120        60.2       -50.00%" +:+ LF)
  = "| Benchmark | Old ns/op | New ns/op | Delta |" +:+ LF +:+
    "|-|-|-|-|" +:+ LF +:+
    "BenchmarkX-8|120|60.2|-50.00%" +:+ LF.
Proof. vm_compute. reflexivity. Qed.

(** ** The loop computes the line-by-line transform *)

Lemma drop_S_insert {A} (l : list A) i x :
  drop (S i) (<[i := x]> l) = drop (S i) l.
Proof. apply drop_insert_lt. lia. Qed.

Lemma drop_S_insertSeparator i tc :
  i < length tc →
  drop (S i) (insertSeparator i tc) = separator :: drop (S i) tc.
Proof.
  intros Hi. unfold insertSeparator. replace (i + 1) with (S i) by lia.
  rewrite drop_app_length'; [done|]. rewrite length_take. lia.
Qed.

Lemma length_insertSeparator i tc :
  i < length tc → length (insertSeparator i tc) = S (length tc).
Proof.
  intros Hi. unfold insertSeparator.
  rewrite length_app, length_take. cbn [app length]. rewrite length_drop. lia.
Qed.


Lemma headerFor_isHeader e : is_Some (headerFor e) ↔ isHeader e = true.
Proof.
  unfold headerFor, isHeader, markers. cbn.
  destruct (Contains e "old ns/op"); [cbn; split; eauto|].
  destruct (Contains e "old MB/s"); [cbn; split; eauto|].
  destruct (Contains e "old allocs"); [cbn; split; eauto|].
  destruct (Contains e "old bytes"); [cbn; split; eauto|].
  cbn. split; [intros [? ?]; done|done].
Qed.

Lemma transformLines_separator : transformLines [separator] = [separator].
Proof. reflexivity. Qed.

Lemma take_S_insert {A} (l : list A) i x :
  i < length l → take (S i) (<[i := x]> l) = take i l ++ [x].
Proof.
  intros Hi. rewrite (take_S_r _ _ x) by (by apply list_lookup_insert_eq).
  rewrite take_insert_ge by lia. done.
Qed.

Lemma take_insertSeparator i tc :
  i < length tc → take i (insertSeparator i tc) = take i tc.
Proof.
  intros Hi. unfold insertSeparator.
  rewrite take_app_le by (rewrite length_take; lia).
  rewrite take_take. f_equal. lia.
Qed.

Lemma transformLines_inserted e : transformLines (inserted e) = inserted e.
Proof. unfold inserted. by destruct (isHeader e). Qed.

(** One iteration at a line [e] leaves the lines before index [i] alone,
    puts the transformed line at index [i], and leaves the lines after [e]
    behind what it inserted; after a header, the inserted row is the next
    line the loop visits. *)
Lemma body_spec i e tc :
  tc !! i = Some e →
  take (S i) (body i e tc) = take i tc ++ [transformLine e] ∧
  drop (S i) (body i e tc) = inserted e ++ drop (S i) tc.
Proof.
  intros He. pose proof (lookup_lt_Some _ _ _ He) as Hi.
  assert (Hplain : ∀ x,
    take (S i) (<[i:=x]> tc) = take i tc ++ [x] ∧
    drop (S i) (<[i:=x]> tc) = [] ++ drop (S i) tc).
  { intros x. rewrite take_S_insert, drop_S_insert by done. done. }
  assert (Hhdr : ∀ x,
    take (S i) (<[i:=x]> (insertSeparator i tc)) = take i tc ++ [x] ∧
    drop (S i) (<[i:=x]> (insertSeparator i tc))
      = [separator] ++ drop (S i) tc).
  { intros x.
    rewrite take_S_insert by (rewrite length_insertSeparator; lia).
    rewrite take_insertSeparator, drop_S_insert, drop_S_insertSeparator by done.
    done. }
  unfold body, transformLine, inserted, isHeader, headerFor, markers. cbn.
  destruct (decide (e = "")) as [->|_]; [apply Hplain|].
  destruct (Contains e "old ns/op"); [apply Hhdr|].
  destruct (Contains e "old MB/s"); [apply Hhdr|].
  destruct (Contains e "old allocs"); [apply Hhdr|].
  destruct (Contains e "old bytes"); [apply Hhdr|].
  apply Hplain.
Qed.

Lemma loop_spec i tc :
  loop i tc = take i tc ++ transformLines (drop i tc).
Proof.
  unfold transformLines.
  funelim (loop i tc).
  - destruct (body_spec _ _ _ He) as (Htake & Hdrop).
    rewrite H, Htake, Hdrop.
    rewrite (drop_S _ _ _ He). cbn [flat_map]. unfold mdLine at 2.
    rewrite flat_map_app. fold (transformLines (inserted e)).
    rewrite transformLines_inserted, <- !app_assoc. done.
  - pose proof (lookup_ge_None_1 _ _ e) as Hge.
    rewrite take_ge, drop_ge by done. cbn. by rewrite app_nil_r.
Qed.

(** The program's transform is the line-by-line one. *)
Theorem formatCommentToMD_transformLines rawTable :
  formatCommentToMD rawTable = Join (transformLines (Split rawTable LF)) LF.
Proof. unfold formatCommentToMD. by rewrite loop_spec. Qed.

(** ** Lines: [Split] and [Join] at newlines *)

Lemma str_app_String x (a b : string) : String x a +:+ b = String x (a +:+ b).
Proof. reflexivity. Qed.

Lemma str_app_assoc (a b c : string) : (a +:+ b) +:+ c = a +:+ (b +:+ c).
Proof. induction a as [|x a IH]; [done|]. by rewrite !str_app_String, IH. Qed.

Lemma str_app_nil_r (a : string) : a +:+ "" = a.
Proof. induction a as [|x a IH]; [done|]. by rewrite str_app_String, IH. Qed.

Lemma hasLF_app (a b : string) : hasLF (a +:+ b) = hasLF a || hasLF b.
Proof.
  induction a as [|x a IH]; [done|].
  rewrite str_app_String. cbn [hasLF]. by rewrite IH, orb_assoc.
Qed.

Lemma HasPrefix_LF c s :
  HasPrefix (String c s) LF = bool_decide (c = "010"%char).
Proof.
  unfold HasPrefix, LF.
  change (String.prefix (String "010" "") (String c s))
    with (if ascii_dec "010" c then String.prefix "" s else false).
  destruct (ascii_dec "010" c) as [<-|Hne].
  - by destruct s.
  - symmetry. apply bool_decide_eq_false. congruence.
Qed.

Lemma splitGo_cur cur s :
  splitGo LF 0 cur s =
  match splitGo LF 0 "" s with
  | x :: xs => (cur +:+ x) :: xs
  | [] => []
  end.
Proof.
  revert cur. induction s as [|c s IH]; intros cur.
  - cbn. by rewrite str_app_nil_r.
  - cbn [splitGo]. rewrite HasPrefix_LF. case_bool_decide.
    + by rewrite str_app_nil_r.
    + rewrite (IH (cur +:+ String c "")), (IH ("" +:+ String c "")).
      destruct (splitGo LF 0 "" s); [done|].
      by rewrite str_app_assoc.
Qed.

Lemma Split_String c s :
  Split (String c s) LF =
  if bool_decide (c = "010"%char) then "" :: Split s LF
  else match Split s LF with
       | x :: xs => String c x :: xs
       | [] => []
       end.
Proof.
  unfold Split. cbn [splitGo]. rewrite HasPrefix_LF.
  case_bool_decide; [done|]. by rewrite splitGo_cur.
Qed.

Lemma Split_nonempty s : Split s LF ≠ [].
Proof.
  induction s as [|c s IH]; [done|]. rewrite Split_String.
  case_bool_decide; [done|]. by destruct (Split s LF).
Qed.

Lemma Split_hasLF s : Forall (λ x, hasLF x = false) (Split s LF).
Proof.
  induction s as [|c s IH]; [by repeat constructor|].
  rewrite Split_String. case_bool_decide as Hc.
  - by constructor.
  - destruct (Split s LF) as [|x xs]; [done|].
    inversion_clear IH as [|? ? Hx Hxs]. constructor; [|done].
    cbn. rewrite Hx. by rewrite bool_decide_eq_false_2.
Qed.

Lemma Split_line x : hasLF x = false → Split x LF = [x].
Proof.
  induction x as [|c x IH]; [done|]. cbn [hasLF].
  intros [Hc Hx]%orb_false_elim. rewrite Split_String, Hc. by rewrite IH.
Qed.

Lemma Split_line_app x r :
  hasLF x = false → Split (x +:+ LF +:+ r) LF = x :: Split r LF.
Proof.
  induction x as [|c x IH]; cbn [hasLF].
  - intros _. change ("" +:+ LF +:+ r) with (String "010" r).
    by rewrite Split_String.
  - intros [Hc Hx]%orb_false_elim.
    change (String c x +:+ LF +:+ r) with (String c (x +:+ LF +:+ r)).
    rewrite Split_String, Hc. by rewrite IH.
Qed.

(** Splitting what was joined gives the lines back. *)
Lemma Split_Join lines :
  lines ≠ [] → Forall (λ x, hasLF x = false) lines →
  Split (Join lines LF) LF = lines.
Proof.
  induction lines as [|x [|y rest] IH]; [done| |].
  - intros _ Hall. inversion_clear Hall. cbn. by apply Split_line.
  - intros _ Hall. inversion_clear Hall as [|? ? Hx Hrest].
    change (Join (x :: y :: rest) LF) with (x +:+ LF +:+ Join (y :: rest) LF).
    rewrite Split_line_app by done. by rewrite IH.
Qed.

(** Joining what was split gives the text back. *)
Lemma Join_Split s : Join (Split s LF) LF = s.
Proof.
  induction s as [|c s IH]; [done|]. rewrite Split_String.
  pose proof (Split_nonempty s) as Hne.
  destruct (Split s LF) as [|x xs] eqn:E; [done|].
  case_bool_decide as Hc.
  - subst c. change (Join ("" :: x :: xs) LF) with (LF +:+ Join (x :: xs) LF).
    by rewrite IH.
  - destruct xs as [|y ys]; cbn in *; by rewrite <- IH.
Qed.

(** ** Fields *)

Lemma emit_Forall (P : string → Prop) cur :
  (cur ≠ "" → P cur) → Forall P (emit cur).
Proof.
  intros HP. unfold emit. case_decide; [constructor|].
  repeat constructor. by apply HP.
Qed.

Lemma fieldsGo_Forall (P : string → Prop) cur s mask :
  (∀ a c, (a ≠ "" → P a) → P (a +:+ String c "")) →
  (cur ≠ "" → P cur) → Forall P (fieldsGo cur s mask).
Proof.
  intros Hstep. revert cur mask.
  induction s as [|c s IH]; intros cur mask Hcur.
  - cbn. by apply emit_Forall.
  - destruct mask as [|[] mask]; cbn.
    + by apply emit_Forall.
    + apply Forall_app. split; [by apply emit_Forall|]. by apply IH.
    + apply IH. intros _. by apply Hstep.
Qed.

Lemma Fields_nonempty e : Forall (λ f, f ≠ "") (Fields e).
Proof.
  apply fieldsGo_Forall; [|done]. intros a c _. by destruct a.
Qed.

Lemma fieldsGo_hasLF cur s mask :
  hasLF cur = false → hasLF s = false →
  Forall (λ f, hasLF f = false) (fieldsGo cur s mask).
Proof.
  revert cur mask. induction s as [|c s IH]; intros cur mask Hcur Hs.
  - cbn. by apply emit_Forall.
  - cbn in Hs. apply orb_false_elim in Hs as [Hc Hs].
    destruct mask as [|[] mask]; cbn.
    + by apply emit_Forall.
    + apply Forall_app. split; [by apply emit_Forall|]. by apply IH.
    + apply IH; [|done]. rewrite hasLF_app, Hcur. cbn. by rewrite Hc.
Qed.

Lemma Fields_hasLF e :
  hasLF e = false → Forall (λ f, hasLF f = false) (Fields e).
Proof. intros He. by apply fieldsGo_hasLF. Qed.

Lemma Join_hasLF fs sep :
  hasLF sep = false → Forall (λ f, hasLF f = false) fs →
  hasLF (Join fs sep) = false.
Proof.
  intros Hsep. induction fs as [|x [|y rest] IH]; intros Hall; [done| |].
  - by inversion_clear Hall.
  - inversion_clear Hall as [|? ? Hx Hrest].
    change (Join (x :: y :: rest) sep) with (x +:+ sep +:+ Join (y :: rest) sep).
    rewrite !hasLF_app, Hx, Hsep. by rewrite IH.
Qed.

Lemma Join_empty fs sep :
  Forall (λ f, f ≠ "") fs → Join fs sep = "" → fs = [].
Proof.
  destruct fs as [|x [|y rest]]; [done| |]; intros Hall; inversion_clear Hall.
  - done.
  - cbn. by destruct x.
Qed.

(** A line of fields joined by pipes is empty exactly when there is no
    field. *)
Lemma Join_Fields_empty e : Join (Fields e) "|" = "" ↔ Fields e = [].
Proof.
  split; [apply Join_empty, Fields_nonempty|]. by intros ->.
Qed.

(** A field starts in every line that has an ASCII letter in it. The bytes
    that follow the first byte of a rune of several bytes are continuation
    bytes, so the letter is never swallowed by a rune before it. *)

Lemma inRange_cont lo hi b :
  (0x80 ≤ lo)%N → (hi ≤ 0xBF)%N → inRange lo hi b = true → cont b = true.
Proof.
  unfold cont, inRange. intros Hlo Hhi [H1 H2]%andb_prop.
  apply N.leb_le in H1, H2. apply andb_true_intro.
  split; apply N.leb_le; lia.
Qed.

Lemma DecodeRuneInString_cont c s r w :
  DecodeRuneInString (String c s) = (r, w) → contBytes (pred w) s.
Proof.
  unfold DecodeRuneInString.
  repeat first
    [ progress (intros [= <- <-]; cbn [pred contBytes])
    | match goal with
      | |- context [if ?b then _ else _] => destruct b eqn:?
      | |- context [match ?x with EmptyString => _ | String _ _ => _ end] =>
        destruct x
      end ];
  repeat match goal with
  | H : _ && _ = true |- _ => apply andb_prop in H as [? ?]
  end;
  repeat split; try done;
  match goal with
  | H : inRange ?lo ?hi ?b = true |- cont ?b = true =>
    apply (inRange_cont lo hi); [| |exact H]; lia
  end.
Qed.

Lemma fieldsGo_cur_nonempty cur s mask : cur ≠ "" → fieldsGo cur s mask ≠ [].
Proof.
  revert cur mask. induction s as [|c s IH]; intros cur mask Hcur.
  - cbn. unfold emit. by rewrite decide_False.
  - destruct mask as [|[] mask]; cbn.
    + unfold emit. by rewrite decide_False.
    + unfold emit. by rewrite decide_False.
    + apply IH. by destruct cur.
Qed.

Lemma fieldsGo_letter a rest k sp cur :
  contBytes k (a +:+ String "o" rest) →
  fieldsGo cur (a +:+ String "o" rest)
    (spaceMask k sp (a +:+ String "o" rest)) ≠ [].
Proof.
  revert k sp cur. induction a as [|c a IH]; intros k sp cur Hk.
  - change ("" +:+ String "o" rest) with (String "o" rest) in *.
    destruct k as [|k]; [|by destruct Hk].
    cbn. apply fieldsGo_cur_nonempty. by destruct cur.
  - rewrite str_app_String in *.
    assert (Hgo : ∀ b k', contBytes k' (a +:+ String "o" rest) →
      fieldsGo cur (String c (a +:+ String "o" rest))
        (b :: spaceMask k' b (a +:+ String "o" rest)) ≠ []).
    { intros b k' Hk'. cbn [fieldsGo]. destruct b.
      - intros [_ Hnil]%app_eq_nil. by eapply IH.
      - by apply IH. }
    destruct k as [|k].
    + cbn [spaceMask].
      destruct (DecodeRuneInString (String c (a +:+ String "o" rest)))
        as [r w] eqn:Hdec.
      apply Hgo. by eapply DecodeRuneInString_cont.
    + cbn [spaceMask]. destruct Hk as [_ Hk]. by apply Hgo.
Qed.

Lemma HasPrefix_app s m : HasPrefix s m = true → ∃ b, s = m +:+ b.
Proof.
  unfold HasPrefix. revert s. induction m as [|x m IH]; intros s.
  - intros _. by exists s.
  - destruct s as [|y s]; [done|].
    change (String.prefix (String x m) (String y s))
      with (if ascii_dec x y then String.prefix m s else false).
    destruct (ascii_dec x y) as [<-|]; [|done].
    intros [b ->]%IH. by exists b.
Qed.

Lemma Contains_app e m : Contains e m = true → ∃ a b, e = a +:+ m +:+ b.
Proof.
  induction e as [|c e IH]; cbn [Contains].
  - rewrite orb_false_r. intros [b ->]%HasPrefix_app. by exists "", b.
  - intros [[b ->]%HasPrefix_app | [a [b ->]]%IH]%orb_prop.
    + by exists "", b.
    + by exists (String c a), b.
Qed.

Lemma isHeader_letter e :
  isHeader e = true → ∃ a rest, e = a +:+ String "o" rest.
Proof.
  unfold isHeader. rewrite !orb_true_iff.
  intros [[[H|H]|H]|H]; apply Contains_app in H as (a & b & ->);
    rewrite !str_app_String; eauto.
Qed.

(** A header line is not blank and has a field. *)
Lemma isHeader_hasField e : isHeader e = true → hasField e.
Proof.
  intros (a & rest & ->)%isHeader_letter. by apply fieldsGo_letter.
Qed.

Lemma isHeader_nonempty e : isHeader e = true → e ≠ "".
Proof. by intros H ->. Qed.

(** ** The lines of the output *)

Lemma headerFor_hasLF e h : headerFor e = Some h → hasLF h = false.
Proof.
  unfold headerFor, markers. cbn.
  repeat (destruct (Contains e _); [by intros [= <-]|]). done.
Qed.

Lemma transformLine_hasLF e : hasLF e = false → hasLF (transformLine e) = false.
Proof.
  intros He. unfold transformLine. case_decide; [done|].
  destruct (headerFor e) as [h|] eqn:Hh; [by eapply headerFor_hasLF|].
  apply Join_hasLF; [done|]. by apply Fields_hasLF.
Qed.

Lemma transformLines_hasLF lines :
  Forall (λ x, hasLF x = false) lines →
  Forall (λ x, hasLF x = false) (transformLines lines).
Proof.
  induction 1 as [|e lines He _ IH]; [constructor|].
  cbn. constructor; [by apply transformLine_hasLF|].
  apply Forall_app. split; [|done].
  unfold inserted. destruct (isHeader e); by repeat constructor.
Qed.

Lemma transformLines_app pre post :
  transformLines (pre ++ post) = transformLines pre ++ transformLines post.
Proof. apply flat_map_app. Qed.

Lemma transformLines_cons e post :
  transformLines (e :: post) = transformLine e :: inserted e ++ transformLines post.
Proof. reflexivity. Qed.

(** The lines of the output are the transformed lines of the input. *)
Theorem lines_formatCommentToMD rawTable :
  Split (formatCommentToMD rawTable) LF = transformLines (Split rawTable LF).
Proof.
  rewrite formatCommentToMD_transformLines. apply Split_Join.
  - pose proof (Split_nonempty rawTable) as Hne.
    by destruct (Split rawTable LF).
  - apply transformLines_hasLF, Split_hasLF.
Qed.

Lemma length_transformLines lines :
  length (transformLines lines) = length lines + headerCount lines.
Proof.
  unfold headerCount. induction lines as [|e lines IH]; [done|].
  rewrite transformLines_cons, filter_cons. cbn [length].
  rewrite length_app, IH. unfold inserted.
  destruct (isHeader e); [rewrite decide_True by done|rewrite decide_False by done];
    cbn [length]; lia.
Qed.

Lemma headerCount_app pre post :
  headerCount (pre ++ post) = headerCount pre + headerCount post.
Proof. unfold headerCount. by rewrite filter_app, length_app. Qed.

Lemma transformLines_lookup_middle pre e post :
  transformLines (pre ++ e :: post) !! (length pre + headerCount pre)
  = Some (transformLine e).
Proof.
  rewrite transformLines_app, transformLines_cons.
  rewrite lookup_app_r; rewrite length_transformLines; [|lia].
  by replace (_ - _) with 0 by lia.
Qed.

Lemma transformLines_lookup lines i e :
  lines !! i = Some e →
  transformLines lines !! outIndex lines i = Some (transformLine e).
Proof.
  intros He. pose proof (lookup_lt_Some _ _ _ He) as Hi.
  pose proof (transformLines_lookup_middle (take i lines) e (drop (S i) lines))
    as Hmid.
  rewrite <- (drop_S _ _ _ He), take_drop, length_take in Hmid.
  unfold outIndex. by replace (i `min` length lines) with i in Hmid by lia.
Qed.

Lemma outIndex_lt lines i j : i < j → outIndex lines i < outIndex lines j.
Proof.
  intros Hij. unfold outIndex.
  assert (headerCount (take i lines) ≤ headerCount (take j lines))%nat; [|lia].
  replace (take i lines) with (take i (take j lines))
    by (rewrite take_take; f_equal; lia).
  rewrite <- (take_drop i (take j lines)) at 2.
  rewrite headerCount_app. lia.
Qed.

Lemma headerFor_Some e : isHeader e = true → ∃ h, headerFor e = Some h.
Proof. intros H. by apply headerFor_isHeader. Qed.

Lemma headerFor_None e : isHeader e = false → headerFor e = None.
Proof.
  intros H. destruct (headerFor e) eqn:E; [|done].
  assert (isHeader e = true) by (apply headerFor_isHeader; eauto). congruence.
Qed.



Lemma transformLines_no_header lines :
  headerCount lines = 0 → transformLines lines = transformLine <$> lines.
Proof.
  unfold headerCount. induction lines as [|e lines IH]; [done|].
  rewrite filter_cons, transformLines_cons. unfold inserted.
  destruct (isHeader e) eqn:He.
  - by rewrite decide_True by done.
  - rewrite decide_False by done. intros H. cbn. by rewrite IH.
Qed.

Lemma headerCount_one lines :
  headerCount lines = 1 →
  ∃ pre e post, lines = pre ++ e :: post ∧ isHeader e = true ∧
    headerCount pre = 0 ∧ headerCount post = 0.
Proof.
  unfold headerCount. induction lines as [|x lines IH]; [done|].
  rewrite filter_cons. destruct (isHeader x) eqn:Hx.
  - rewrite decide_True by done. cbn [length]. intros [= H0].
    by exists [], x, lines.
  - rewrite decide_False by done.
    intros (pre & e & post & -> & He & Hpre & Hpost)%IH.
    exists (x :: pre), e, post. repeat split; try done.
    rewrite filter_cons, decide_False by congruence. done.
Qed.

Lemma nonBlankLines_app pre post :
  nonBlankLines (pre ++ post) = nonBlankLines pre + nonBlankLines post.
Proof. unfold nonBlankLines. by rewrite filter_app, length_app. Qed.

Lemma headerFor_nonempty e h : headerFor e = Some h → h ≠ "".
Proof.
  unfold headerFor, markers. cbn.
  repeat (destruct (Contains e _); [by intros [= <-]|]). done.
Qed.

Lemma nonBlankLines_cons x l :
  nonBlankLines (x :: l) = (if decide (x = "") then 0 else 1) + nonBlankLines l.
Proof.
  unfold nonBlankLines, blank. rewrite filter_cons.
  destruct (decide (x = "")).
  - by rewrite decide_False by tauto.
  - by rewrite decide_True by done.
Qed.

Lemma transformLine_empty e : transformLine e = "" ↔ ¬ hasField e.
Proof.
  unfold transformLine, hasField. destruct (decide (e = "")) as [->|Hne].
  - split; [intros _ H; by apply H|done].
  - destruct (headerFor e) as [h|] eqn:Hh.
    + split; [by intros ?%(headerFor_nonempty e)|].
      intros Hf. destruct Hf. apply isHeader_hasField, headerFor_isHeader. eauto.
    + rewrite Join_Fields_empty. split; [tauto|].
      intros Hf. by destruct (decide (Fields e = [])).
Qed.

(** Line by line: a line comes out non-blank when it has a field, and the
    row below a header is one more non-blank line. *)
Lemma nonBlankLines_transformLines lines :
  nonBlankLines (transformLines lines)
  = length (filter hasField lines) + headerCount lines.
Proof.
  unfold headerCount. induction lines as [|e lines IH]; [done|].
  rewrite transformLines_cons, nonBlankLines_cons, nonBlankLines_app, IH.
  rewrite !filter_cons.
  assert (Hins : nonBlankLines (inserted e) = if isHeader e then 1 else 0).
  { unfold inserted. by destruct (isHeader e). }
  rewrite Hins.
  destruct (decide (hasField e)) as [Hf|Hf];
    [rewrite decide_False by (by rewrite transformLine_empty; tauto)
    |rewrite decide_True by (by rewrite transformLine_empty)];
    (destruct (isHeader e);
      [rewrite decide_True by done|rewrite decide_False by done]);
    cbn [length]; lia.
Qed.

(** ** The properties of the markdown transform *)

(** C9. The lines of the output are the lines of the input in their order,
    each replaced by its transformed text, with nothing but a separator row
    inserted, below each header: the line at index [i] of the input is at
    index [outIndex lines i] of the output, later lines are further down,
    and the output is longer by the number of inserted rows. *)
Theorem formatCommentToMD_order_preserved rawTable :
  let lines := Split rawTable LF in
  let out := Split (formatCommentToMD rawTable) LF in
  out = flat_map (λ e, transformLine e ::
                         (if isHeader e then [separator] else [])) lines ∧
  (∀ i e, lines !! i = Some e →
     out !! outIndex lines i = Some (transformLine e)) ∧
  (∀ i j, i < j → outIndex lines i < outIndex lines j) ∧
  length out = length lines + headerCount lines.
Proof.
  cbn zeta. rewrite lines_formatCommentToMD. split; [done|].
  split; [apply transformLines_lookup|].
  split; [apply outIndex_lt|apply length_transformLines].
Qed.

(** C6. A line with a metric marker in it is replaced by the markdown header
    of that marker, with the separator row [|-|-|-|-|] directly below it;
    when several markers occur in the line, the marker is the first of them
    in the order ns/op, MB/s, allocs, bytes. *)
Theorem formatCommentToMD_header_line rawTable pre e post :
  Split rawTable LF = pre ++ e :: post →
  let replacedBy h :=
    Split (formatCommentToMD rawTable) LF
    = transformLines pre ++ h :: "|-|-|-|-|" :: transformLines post in
  (Contains e "old ns/op" = true →
     replacedBy "| Benchmark | Old ns/op | New ns/op | Delta |") ∧
  (Contains e "old ns/op" = false → Contains e "old MB/s" = true →
     replacedBy "| Benchmark | Old MB/s | New MB/s | Speedup |") ∧
  (Contains e "old ns/op" = false → Contains e "old MB/s" = false →
   Contains e "old allocs" = true →
     replacedBy "| Benchmark | Old allocs | New allocs | Delta |") ∧
  (Contains e "old ns/op" = false → Contains e "old MB/s" = false →
   Contains e "old allocs" = false → Contains e "old bytes" = true →
     replacedBy "| Benchmark | Old bytes | New bytes | Delta |").
Proof.
  intros Hlines. cbn zeta.
  rewrite lines_formatCommentToMD, Hlines, transformLines_app,
    transformLines_cons.
  unfold transformLine, inserted, isHeader, headerFor, markers. cbn.
  repeat split; intros;
    repeat match goal with H : Contains e _ = _ |- _ => rewrite H end;
    cbn; (rewrite decide_False; [done|]);
    intros ->; discriminate.
Qed.


(** C2, as amended. When exactly one line of the input has a metric marker,
    the output is the input's transformed lines with one row inserted, the
    separator row, directly below the translated header; the number of
    non-blank lines of the output is one more than the number of lines of
    the input that have a field, a line of white space only coming out
    blank. *)
Theorem formatCommentToMD_single_header rawTable :
  headerCount (Split rawTable LF) = 1 →
  ∃ pre e post,
    Split rawTable LF = pre ++ e :: post ∧
    headerFor e = Some (transformLine e) ∧
    Split (formatCommentToMD rawTable) LF
    = (transformLine <$> pre) ++
      transformLine e :: separator :: (transformLine <$> post) ∧
    length (Split (formatCommentToMD rawTable) LF)
    = length (Split rawTable LF) + 1 ∧
    nonBlankLines (Split (formatCommentToMD rawTable) LF)
    = length (filter hasField (Split rawTable LF)) + 1.
Proof.
  intros Hone. rewrite lines_formatCommentToMD.
  destruct (headerCount_one _ Hone) as (pre & e & post & Hl & He & Hpre & Hpost).
  exists pre, e, post. split; [done|].
  rewrite length_transformLines, nonBlankLines_transformLines, Hone.
  repeat split.
  - unfold transformLine. rewrite decide_False by (by apply isHeader_nonempty).
    by destruct (headerFor_Some _ He) as [h ->].
  - rewrite Hl, transformLines_app, transformLines_cons.
    rewrite !transformLines_no_header by done.
    unfold inserted. by rewrite He.
Qed.

(** ** Environment construction *)

(** C8. [PostErr] of a Local environment returns no error, whatever the
    error text, and does nothing. *)
Theorem Local_PostErr_no_error w l err past :
  PostErr w (EnvLocal l) err past = (Ok None, past).
Proof. reflexivity. Qed.

Lemma elem_of_ancestors d dir : d ∈ ancestors dir ↔ d `prefix_of` dir.
Proof.
  unfold ancestors. rewrite list_elem_of_fmap. split.
  - intros (n & -> & _). apply prefix_take.
  - intros [k ->]. exists (length d). split; [by rewrite take_app_length|].
    rewrite elem_of_reverse, elem_of_seq, length_app. lia.
Qed.

(** C5. Where neither the working directory nor an ancestor of it is
    version-controlled, [newLocalEnv] fails with the not-a-repository error;
    where one of them is, it succeeds with a Local environment. *)
Theorem newLocalEnv_repository w e past :
  ((∀ dir, dir `prefix_of` workingDirectory w → versionControlled w dir = false) →
     newLocalEnv w e past = (Err ErrRepositoryNotExists, past)) ∧
  ((∃ dir, dir `prefix_of` workingDirectory w ∧ versionControlled w dir = true) →
     ∃ r, newLocalEnv w e past
          = (Ok (EnvLocal {| Local_environment := e; Local_repo := r |}), past)).
Proof.
  run_steps. unfold PlainOpenWithOptions. cbn. split.
  - intros Hnone.
    destruct (List.find _ _) as [d|] eqn:Hfind; [|done].
    apply find_some in Hfind as [Hin Hvc].
    apply list_elem_of_In, elem_of_ancestors, Hnone in Hin. congruence.
  - intros (d & Hd & Hvc).
    destruct (List.find _ _) as [d'|] eqn:Hfind; [by eexists|].
    apply elem_of_ancestors, list_elem_of_In in Hd.
    pose proof (find_none _ _ Hfind _ Hd). congruence.
Qed.

Lemma newLocalEnv_repository_witness :
  (newLocalEnv
     (sampleWorld Panic None None None "" (λ _, false))
     {| logger := mkLogger; benchFunc := "BenchmarkX";
        compareTarget := "master"; isRaceEnabled := true; home := "" |} []
   = (Err ErrRepositoryNotExists, [])) ∧
  (∃ r, newLocalEnv
     (sampleWorld Panic None None None ""
        (λ dir, bool_decide (dir = ["home"; "dev"; "prometheus"])))
     {| logger := mkLogger; benchFunc := "BenchmarkX";
        compareTarget := "master"; isRaceEnabled := true; home := "" |} []
   = (Ok (EnvLocal {| Local_environment :=
                        {| logger := mkLogger; benchFunc := "BenchmarkX";
                           compareTarget := "master"; isRaceEnabled := true;
                           home := "" |};
                      Local_repo := r |}), [])).
Proof.
  split.
  - apply (proj1 (newLocalEnv_repository _ _ [])). intros dir _. reflexivity.
  - apply (proj2 (newLocalEnv_repository _ _ [])).
    exists ["home"; "dev"; "prometheus"]. split; [|reflexivity].
    by exists ["tsdb"].
Defined.

(** C1, as amended. Every failure of the clone ends the construction, the
    failure for a repository that already exists among them: the clone
    error comes back wrapped as "git clone", and nothing is done after the
    clone. *)
Theorem newGitHubEnv_clone_failure w lg path data login name number err past :
  ReadFile w path = Ok data →
  ParseWebHook w "issue_comment" data =
    Ok (IssueComment {| repoName := Some name; ownerLogin := Some login;
                        issueNumber := number |}) →
  Chdir w (Getenv w "GITHUB_WORKSPACE") = None →
  PlainCloneContext w name (cloneURL login name) = Err err →
  newGitHubEnv w lg path past
  = (Err (errorsWrap err "git clone"),
     past ++ [DidChdir (Getenv w "GITHUB_WORKSPACE");
              DidClone name (cloneURL login name)]).
Proof.
  intros Hread Hparse Hws Hclone. run_steps.
  rewrite Hread, Hparse; cbn; rewrite Hws; cbn; rewrite Hclone; cbn.
  tidy_effects.
Qed.

Lemma newGitHubEnv_clone_failure_witness :
  newGitHubEnv cloneExistsWorld mkLogger "/github/workflow/event.json" []
  = (Err (errorsWrap ErrRepositoryAlreadyExists "git clone"),
     [] ++ [DidChdir (Getenv cloneExistsWorld "GITHUB_WORKSPACE");
            DidClone "prometheus" (cloneURL "prometheus" "prometheus")]).
Proof.
  apply (newGitHubEnv_clone_failure cloneExistsWorld mkLogger
           "/github/workflow/event.json" "{}" "prometheus" "prometheus"
           (Some 42%Z) ErrRepositoryAlreadyExists []); reflexivity.
Defined.

(** C1, as stated, fails: in a world where every call succeeds but the
    clone, which finds the repository already there, the construction
    returns the clone error and goes no further than the clone. *)
Lemma newGitHubEnv_clone_already_exists :
  let w := cloneExistsWorld in
  PlainCloneContext w "prometheus" (cloneURL "prometheus" "prometheus")
    = Err ErrRepositoryAlreadyExists ∧
  newGitHubEnv w mkLogger "/github/workflow/event.json" []
  = (Err (errorsWrap ErrRepositoryAlreadyExists "git clone"),
     [DidChdir "/github/workspace";
      DidClone "prometheus" "https://github.com/prometheus/prometheus.git"]) ∧
  ¬ ∃ env past, newGitHubEnv w mkLogger "/github/workflow/event.json" []
                = (Ok env, past).
Proof.
  cbn zeta. split; [reflexivity|]. split; [reflexivity|].
  intros (env & past & H). vm_compute in H. discriminate.
Qed.

Lemma bothErrors_Cause err perr : Cause (bothErrors err perr) = Cause err.
Proof. reflexivity. Qed.

Lemma bothErrors_Error err perr :
  Error (bothErrors err perr)
  = ("posting a comment for `checkout` command execution error; postComment err:"
     +:+ "posting err" +:+ ": " +:+ Error perr) +:+ ": " +:+ Error err.
Proof. reflexivity. Qed.

(** C3. A fetch that fails, other than by being up to date already, and a
    checkout that fails each post one comment about the failure before
    anything is returned. When the comment is posted, the error of the fetch
    or of the checkout is returned as it is. When posting fails too, the
    returned error combines both: it wraps the error of the fetch or of the
    checkout, which stays its cause, and its text is the text of the
    posting error followed by the text of the error of the fetch or of the
    checkout. *)
Theorem newGitHubEnv_switch_failure
    w lg path login name number r wt bench race target past :
  SetupSucceeds w path login name number r wt bench race target →
  let atFetch := past ++ setupEffects w login name ++ [DidFetch r] in
  let atCheckout := atFetch ++ [DidCheckout wt (pullBranch number)] in
  let body text :=
    text +:+ ". Logs: Full logs at: https://github.com/" +:+ login +:+ "/"
    +:+ name +:+ "/commit/" +:+ Getenv w "GITHUB_SHA" +:+ "/checks" in
  let comment text := DidComment login name number (body text) in
  let posted text := CreateComment w login name number (body text) in
  let both err perr :=
    errorsWrap err
      ("posting a comment for `checkout` command execution error; "
       +:+ "postComment err:posting err: " +:+ Error perr) in
  (∀ err perr,
     Cause (both err perr) = Cause err ∧
     Error (both err perr)
     = "posting a comment for `checkout` command execution error; "
       +:+ "postComment err:posting err: " +:+ Error perr
       +:+ ": " +:+ Error err) ∧
  (∀ err, FetchContext w r = Some err → err ≠ NoErrAlreadyUpToDate →
     let text := "Switch (fetch) to a pull request branch failed" in
     (posted text = None →
        newGitHubEnv w lg path past = (Err err, atFetch ++ [comment text])) ∧
     (∀ perr, posted text = Some perr →
        newGitHubEnv w lg path past
        = (Err (both err perr), atFetch ++ [comment text]))) ∧
  (∀ err,
     FetchContext w r = None ∨ FetchContext w r = Some NoErrAlreadyUpToDate →
     Checkout w wt (pullBranch number) = Some err →
     let text := "Switch to a pull request branch failed" in
     (posted text = None →
        newGitHubEnv w lg path past
        = (Err err, atCheckout ++ [comment text])) ∧
     (∀ perr, posted text = Some perr →
        newGitHubEnv w lg path past
        = (Err (both err perr), atCheckout ++ [comment text]))).
Proof.
  intros Hs. cbn zeta. split; [|split].
  - intros err perr. split; [reflexivity|].
    cbn [Error]. by rewrite !str_app_assoc.
  - intros err Hf Hne. split; [intros Hpost|intros perr Hpost];
      use_setup Hs; rewrite Hf; cbn; rewrite decide_True by done;
      unfold_names; use_posted Hpost; cbn; tidy_effects.
  - intros err Hf Hc. split; [intros Hpost|intros perr Hpost];
      use_setup Hs;
      (destruct Hf as [Hf|Hf]; rewrite Hf; cbn;
       [|rewrite decide_False by (intros H; by apply H); cbn]);
      rewrite Hc; unfold_names; use_posted Hpost; cbn; tidy_effects.
Qed.

(** C4. A fetch that answers "already up to date" is a success: the
    checkout is the next thing done, and when the checkout succeeds the
    environment is returned, with no error and no comment. *)
Theorem newGitHubEnv_fetch_already_up_to_date
    w lg path login name number r wt bench race target past :
  SetupSucceeds w path login name number r wt bench race target →
  FetchContext w r = Some NoErrAlreadyUpToDate →
  let g := constructed w lg login name number r bench race target in
  let atCheckout :=
    past ++ setupEffects w login name
      ++ [DidFetch r; DidCheckout wt (pullBranch number)] in
  (∃ rest, snd (newGitHubEnv w lg path past) = atCheckout ++ rest) ∧
  (Checkout w wt (pullBranch number) = None →
     newGitHubEnv w lg path past = (Ok (EnvGitHub g), atCheckout)).
Proof.
  intros Hs Hf. cbn zeta. split.
  - use_setup Hs. rewrite Hf. cbn.
    rewrite decide_False by (intros H; by apply H). cbn.
    destruct (Checkout w wt (pullBranch number)) as [err|]; cbn.
    + destruct (CreateComment _ _ _ _ _); cbn;
        eexists [_]; tidy_effects.
    + exists []. tidy_effects.
  - intros Hc. use_setup Hs. rewrite Hf. cbn.
    rewrite decide_False by (intros H; by apply H). cbn.
    rewrite Hc. unfold_names. tidy_effects.
Qed.

(** A construction that succeeds went through every step. *)
Lemma newGitHubEnv_Ok_inv w lg path past env past' :
  newGitHubEnv w lg path past = (Ok env, past') →
  ∃ login name number r wt bench race target,
    SetupSucceeds w path login name number r wt bench race target ∧
    env = EnvGitHub (constructed w lg login name number r bench race target).
Proof.
  unfold newGitHubEnv, newGitHubClient, GitHub_PostErr, postComment.
  unfold mbind, M_bind, mret, M_ret, getOrReturn, okOrReturn, did, deref, wrapping,
    throw.
  cbn beta iota zeta. intros H.
  repeat (case_match; simplify_eq/=);
    unfold mret, M_ret in *; simplify_eq/=;
    match goal with issue : IssueCommentEvent |- _ => destruct issue end;
    simplify_eq/=;
    do 8 eexists; (split; [constructor; eauto|reflexivity]).
Qed.

(** C10. A Remote environment that was constructed has the race detector
    off exactly when the race file holds the text "-no-race" and nothing
    else; with a newline after it, or with an empty file, the race detector
    is on. *)
Theorem newGitHubEnv_IsRaceEnabled w lg path past env past' :
  newGitHubEnv w lg path past = (Ok env, past') →
  ∃ race,
    ReadFile w "/github/home/commentMonitor/RACE" = Ok race ∧
    (IsRaceEnabled env = false ↔ race = "-no-race") ∧
    (race = "-no-race" +:+ LF → IsRaceEnabled env = true) ∧
    (race = "" → IsRaceEnabled env = true).
Proof.
  intros (login & name & number & r & wt & bench & race & target & Hs & ->)
    %newGitHubEnv_Ok_inv.
  exists race. split; [by destruct Hs|].
  unfold IsRaceEnabled, constructed. cbn.
  split; [|split].
  - rewrite bool_decide_eq_false. split; [apply dec_stable|tauto].
  - by intros ->.
  - by intros ->.
Qed.

(** ** The theorems at work on the sample worlds and tables *)

Lemma newGitHubEnv_switch_failure_witness :
  SetupSucceeds fetchFailsWorld "/github/workflow/event.json"
    "prometheus" "prometheus" 42 sampleRepository sampleWorktree
    "BenchmarkX" "" "master" ∧
  newGitHubEnv fetchFailsWorld mkLogger "/github/workflow/event.json" []
  = (Err (errorsWrap (errorsNew "authentication required")
            ("posting a comment for `checkout` command execution error; "
             +:+ "postComment err:posting err: 401 Bad credentials")),
     [DidChdir "/github/workspace";
      DidClone "prometheus" "https://github.com/prometheus/prometheus.git";
      DidChdir "/github/workspace/prometheus";
      DidSetenv "GO111MODULE" "on";
      DidSetenv "CGO_ENABLED" "0";
      DidFetch sampleRepository;
      DidComment "prometheus" "prometheus" 42
        ("Switch (fetch) to a pull request branch failed. Logs: " +:+
         "Full logs at: https://github.com/prometheus/prometheus/commit/"
         +:+ "GITHUB_SHA/checks")]).
Proof.
  assert (Hs : SetupSucceeds fetchFailsWorld "/github/workflow/event.json"
    "prometheus" "prometheus" 42 sampleRepository sampleWorktree
    "BenchmarkX" "" "master").
  { constructor; [exists "{}"; split; reflexivity|reflexivity..]. }
  split; [exact Hs|].
  refine (proj2 (proj1 (proj2 (newGitHubEnv_switch_failure fetchFailsWorld
    mkLogger "/github/workflow/event.json" "prometheus" "prometheus" 42
    sampleRepository sampleWorktree "BenchmarkX" "" "master" [] Hs))
    (errorsNew "authentication required") eq_refl _)
    (errorsNew "401 Bad credentials") eq_refl).
  discriminate.
Defined.

Lemma newGitHubEnv_fetch_already_up_to_date_witness :
  SetupSucceeds upToDateWorld "/github/workflow/event.json"
    "prometheus" "prometheus" 42 sampleRepository sampleWorktree
    "BenchmarkX" "-no-race" "master" ∧
  FetchContext upToDateWorld sampleRepository = Some NoErrAlreadyUpToDate ∧
  newGitHubEnv upToDateWorld mkLogger "/github/workflow/event.json" []
  = (Ok (EnvGitHub (constructed upToDateWorld mkLogger "prometheus"
                      "prometheus" 42 sampleRepository "BenchmarkX"
                      "-no-race" "master")),
     [DidChdir "/github/workspace";
      DidClone "prometheus" "https://github.com/prometheus/prometheus.git";
      DidChdir "/github/workspace/prometheus";
      DidSetenv "GO111MODULE" "on";
      DidSetenv "CGO_ENABLED" "0";
      DidFetch sampleRepository;
      DidCheckout sampleWorktree "pull/42/head:pullrequest"]).
Proof.
  assert (Hs : SetupSucceeds upToDateWorld "/github/workflow/event.json"
    "prometheus" "prometheus" 42 sampleRepository sampleWorktree
    "BenchmarkX" "-no-race" "master").
  { constructor; [exists "{}"; split; reflexivity|reflexivity..]. }
  split; [exact Hs|]. split; [reflexivity|].
  exact (proj2 (newGitHubEnv_fetch_already_up_to_date upToDateWorld mkLogger
    "/github/workflow/event.json" "prometheus" "prometheus" 42
    sampleRepository sampleWorktree "BenchmarkX" "-no-race" "master" []
    Hs eq_refl) eq_refl).
Defined.

Lemma newGitHubEnv_IsRaceEnabled_witness :
  ∃ race,
    ReadFile upToDateWorld "/github/home/commentMonitor/RACE" = Ok race ∧
    (IsRaceEnabled
       (EnvGitHub (constructed upToDateWorld mkLogger "prometheus"
                     "prometheus" 42 sampleRepository "BenchmarkX"
                     "-no-race" "master")) = false ↔ race = "-no-race") ∧
    (race = "-no-race" +:+ LF →
     IsRaceEnabled
       (EnvGitHub (constructed upToDateWorld mkLogger "prometheus"
                     "prometheus" 42 sampleRepository "BenchmarkX"
                     "-no-race" "master")) = true) ∧
    (race = "" →
     IsRaceEnabled
       (EnvGitHub (constructed upToDateWorld mkLogger "prometheus"
                     "prometheus" 42 sampleRepository "BenchmarkX"
                     "-no-race" "master")) = true).
Proof.
  apply (newGitHubEnv_IsRaceEnabled upToDateWorld mkLogger
           "/github/workflow/event.json" []
           _ [DidChdir "/github/workspace";
              DidClone "prometheus"
                "https://github.com/prometheus/prometheus.git";
              DidChdir "/github/workspace/prometheus";
              DidSetenv "GO111MODULE" "on";
              DidSetenv "CGO_ENABLED" "0";
              DidFetch sampleRepository;
              DidCheckout sampleWorktree "pull/42/head:pullrequest"]).
  vm_compute. reflexivity.
Defined.

Lemma formatCommentToMD_order_preserved_witness :
  Split (formatCommentToMD sampleTable) LF !! outIndex (Split sampleTable LF) 1
  = Some (transformLine "BenchmarkX-8  120        60.2       -50.00%") ∧
  outIndex (Split sampleTable LF) 0 < outIndex (Split sampleTable LF) 1.
Proof.
  destruct (formatCommentToMD_order_preserved sampleTable)
    as (_ & Hat & Hlt & _).
  split; [apply Hat; reflexivity|apply Hlt; lia].
Defined.

Lemma formatCommentToMD_header_line_witness :
  Split sampleTable LF
  = [] ++ "benchmark     old ns/op  new ns/op  delta"
       :: ["BenchmarkX-8  120        60.2       -50.00%"; ""] ∧
  Split (formatCommentToMD sampleTable) LF
  = transformLines [] ++
    "| Benchmark | Old ns/op | New ns/op | Delta |" :: "|-|-|-|-|" ::
    transformLines ["BenchmarkX-8  120        60.2       -50.00%"; ""].
Proof.
  split; [reflexivity|].
  apply (proj1 (formatCommentToMD_header_line sampleTable []
    "benchmark     old ns/op  new ns/op  delta"
    ["BenchmarkX-8  120        60.2       -50.00%"; ""] eq_refl)).
  reflexivity.
Defined.


Lemma formatCommentToMD_single_header_witness :
  headerCount (Split sampleTable LF) = 1 ∧
  ∃ pre e post,
    Split sampleTable LF = pre ++ e :: post ∧
    headerFor e = Some (transformLine e) ∧
    Split (formatCommentToMD sampleTable) LF
    = (transformLine <$> pre) ++
      transformLine e :: separator :: (transformLine <$> post) ∧
    length (Split (formatCommentToMD sampleTable) LF)
    = length (Split sampleTable LF) + 1 ∧
    nonBlankLines (Split (formatCommentToMD sampleTable) LF)
    = length (filter hasField (Split sampleTable LF)) + 1.
Proof.
  split; [reflexivity|].
  apply (formatCommentToMD_single_header sampleTable). reflexivity.
Defined.

(** C2, as stated, fails: the table has one header line and, below it, a
    line holding a single space; that line is not blank, no case of the
    [switch] but the last takes it, and it comes out blank. The output has
    as many non-blank lines as the input, not one more. *)
Lemma formatCommentToMD_non_blank_count_fails :
  Split spaceLineTable LF
    = ["benchmark     old ns/op  new ns/op  delta"; " "] ∧
  headerCount (Split spaceLineTable LF) = 1 ∧
  Split (formatCommentToMD spaceLineTable) LF
    = ["| Benchmark | Old ns/op | New ns/op | Delta |"; "|-|-|-|-|"; ""] ∧
  nonBlankLines (Split (formatCommentToMD spaceLineTable) LF)
    ≠ nonBlankLines (Split spaceLineTable LF) + 1.
Proof.
  split; [reflexivity|]. split; [reflexivity|].
  split; [by rewrite lines_formatCommentToMD|].
  rewrite lines_formatCommentToMD. vm_compute. lia.
Qed.

(** * Further properties of the package *)

(** ** The markdown transform, line against line *)

Lemma Split_app_LF a b :
  Split (a +:+ LF +:+ b) LF = Split a LF ++ Split b LF.
Proof.
  induction a as [|c a IH].
  - change ("" +:+ LF +:+ b) with (String "010" b). by rewrite Split_String.
  - rewrite str_app_String, !Split_String, IH.
    case_bool_decide; [done|].
    pose proof (Split_nonempty a) as Hne.
    by destruct (Split a LF).
Qed.

Lemma Join_app_LF l1 l2 :
  l1 ≠ [] → l2 ≠ [] →
  Join (l1 ++ l2) LF = Join l1 LF +:+ LF +:+ Join l2 LF.
Proof.
  intros Hl1 Hl2. induction l1 as [|x [|y l1] IH]; [done| |].
  - destruct l2; [done|]. reflexivity.
  - change (Join ((x :: y :: l1) ++ l2) LF)
      with (x +:+ LF +:+ Join ((y :: l1) ++ l2) LF).
    rewrite IH by done.
    change (Join (x :: y :: l1) LF) with (x +:+ LF +:+ Join (y :: l1) LF).
    by rewrite !str_app_assoc.
Qed.

Lemma transformLines_nonempty lines : lines ≠ [] → transformLines lines ≠ [].
Proof. by destruct lines. Qed.

(** X1. The transform works on each line by itself: the transform of two
    texts with a newline between them is the transform of the first, a
    newline, and the transform of the second. *)
Theorem formatCommentToMD_app a b :
  formatCommentToMD (a +:+ LF +:+ b)
  = formatCommentToMD a +:+ LF +:+ formatCommentToMD b.
Proof.
  rewrite !formatCommentToMD_transformLines, Split_app_LF, transformLines_app.
  apply Join_app_LF; apply transformLines_nonempty, Split_nonempty.
Qed.

(** *** No white space is left in a row *)

Lemma hasSpaceByte_app a b :
  hasSpaceByte (a +:+ b) = hasSpaceByte a || hasSpaceByte b.
Proof.
  induction a as [|x a IH]; [done|].
  rewrite str_app_String. cbn [hasSpaceByte]. by rewrite IH, orb_assoc.
Qed.

Lemma asciiSpace_cont c : cont c = true → asciiSpace c = false.
Proof.
  unfold cont, asciiSpace, inRange. intros [H1 H2]%andb_prop.
  apply N.leb_le in H1. apply orb_false_intro.
  - apply andb_false_intro2, N.leb_gt. lia.
  - apply N.eqb_neq. lia.
Qed.

Lemma asciiSpace_IsSpace c s r w :
  DecodeRuneInString (String c s) = (r, w) → IsSpace r = false →
  asciiSpace c = false.
Proof.
  unfold DecodeRuneInString. destruct (byte c <? 0x80)%N eqn:Hc.
  - intros [= <- <-]. unfold IsSpace, asciiSpace, inRange.
    intros H. repeat (apply orb_false_elim in H as [H ?]).
    by apply orb_false_intro.
  - intros _ _. apply N.ltb_ge in Hc. unfold asciiSpace, inRange.
    apply orb_false_intro.
    + apply andb_false_intro2, N.leb_gt. lia.
    + apply N.eqb_neq. lia.
Qed.

Lemma fieldsGo_hasSpaceByte cur s k sp :
  contBytes k s → hasSpaceByte cur = false →
  Forall (λ f, hasSpaceByte f = false) (fieldsGo cur s (spaceMask k sp s)).
Proof.
  revert cur k sp. induction s as [|c s IH]; intros cur k sp Hk Hcur.
  - cbn. by apply emit_Forall.
  - assert (Hgo : ∀ b k', contBytes k' s → (b = false → asciiSpace c = false) →
      Forall (λ f, hasSpaceByte f = false)
        (fieldsGo cur (String c s) (b :: spaceMask k' b s))).
    { intros b k' Hk' Hc. cbn [fieldsGo]. destruct b.
      - apply Forall_app. split; [by apply emit_Forall|]. by apply IH.
      - apply IH; [done|]. rewrite hasSpaceByte_app, Hcur. cbn.
        by rewrite Hc. }
    destruct k as [|k]; cbn [spaceMask].
    + destruct (DecodeRuneInString (String c s)) as [r w] eqn:Hdec.
      apply Hgo; [by eapply DecodeRuneInString_cont|].
      by eapply asciiSpace_IsSpace.
    + destruct Hk as [Hc Hk]. apply Hgo; [done|].
      intros _. by apply asciiSpace_cont.
Qed.

Lemma Fields_hasSpaceByte e : Forall (λ f, hasSpaceByte f = false) (Fields e).
Proof. by apply (fieldsGo_hasSpaceByte "" e 0 false). Qed.

Lemma Join_hasSpaceByte fs sep :
  hasSpaceByte sep = false → Forall (λ f, hasSpaceByte f = false) fs →
  hasSpaceByte (Join fs sep) = false.
Proof.
  intros Hsep. induction fs as [|x [|y rest] IH]; intros Hall; [done| |].
  - by inversion_clear Hall.
  - inversion_clear Hall as [|? ? Hx Hrest].
    change (Join (x :: y :: rest) sep) with (x +:+ sep +:+ Join (y :: rest) sep).
    rewrite !hasSpaceByte_app, Hx, Hsep. by rewrite IH.
Qed.

Lemma headerFor_markers e h : headerFor e = Some h → h ∈ snd <$> markers.
Proof.
  unfold headerFor, markers. cbn.
  repeat (destruct (Contains e _); [intros [= <-]; set_solver|]). done.
Qed.

Lemma transformLine_row e :
  transformLine e ∈ snd <$> markers ∨ hasSpaceByte (transformLine e) = false.
Proof.
  unfold transformLine. destruct (decide (e = "")) as [->|_]; [by right|].
  destruct (headerFor e) as [h|] eqn:Hh.
  - left. by eapply headerFor_markers.
  - right. apply Join_hasSpaceByte; [done|apply Fields_hasSpaceByte].
Qed.

Lemma elem_of_transformLines l lines :
  l ∈ transformLines lines →
  l = separator ∨ ∃ e, e ∈ lines ∧ l = transformLine e.
Proof.
  unfold transformLines. rewrite list_elem_of_In, in_flat_map.
  intros (e & He%list_elem_of_In & Hl%list_elem_of_In).
  unfold mdLine, inserted in Hl. apply elem_of_cons in Hl as [Hl|Hl].
  - right. eauto.
  - left. destruct (isHeader e);
      [by apply list_elem_of_singleton in Hl|by apply elem_of_nil in Hl].
Qed.

(** X2. Every line of the output is one of the four markdown headers or has
    no ASCII white space in it (no tab, vertical tab, form feed, carriage
    return or space): in the rows, only pipes separate. *)
Theorem formatCommentToMD_rows_without_space rawTable l :
  l ∈ Split (formatCommentToMD rawTable) LF →
  l ∈ snd <$> markers ∨ hasSpaceByte l = false.
Proof.
  rewrite lines_formatCommentToMD.
  intros [->|(e & _ & ->)]%elem_of_transformLines; [by right|].
  apply transformLine_row.
Qed.

Lemma formatCommentToMD_rows_without_space_witness :
  "BenchmarkX-8|120|60.2|-50.00%" ∈ snd <$> markers ∨
  hasSpaceByte "BenchmarkX-8|120|60.2|-50.00%" = false.
Proof.
  apply (formatCommentToMD_rows_without_space sampleTable).
  rewrite lines_formatCommentToMD. vm_compute. set_solver.
Defined.

Lemma Contains_hasSpaceByte l m :
  Contains l m = true → hasSpaceByte m = true → hasSpaceByte l = true.
Proof.
  intros (a & b & ->)%Contains_app Hm.
  rewrite !hasSpaceByte_app, Hm. by rewrite orb_true_r.
Qed.

Lemma isHeader_hasSpaceByte l : isHeader l = true → hasSpaceByte l = true.
Proof.
  unfold isHeader. rewrite !orb_true_iff.
  intros [[[H|H]|H]|H]; by eapply Contains_hasSpaceByte.
Qed.

Lemma transformLine_not_header e : isHeader (transformLine e) = false.
Proof.
  destruct (transformLine_row e) as [Hm|Hsp].
  - unfold markers in Hm. cbn in Hm.
    repeat (apply elem_of_cons in Hm as [Hm|Hm]; [by rewrite Hm|]).
    by apply elem_of_nil in Hm.
  - destruct (isHeader (transformLine e)) eqn:Hhdr; [|done].
    apply isHeader_hasSpaceByte in Hhdr. congruence.
Qed.

Lemma transformLines_headerCount lines : headerCount (transformLines lines) = 0.
Proof.
  induction lines as [|e lines IH]; [done|].
  rewrite transformLines_cons.
  change (transformLine e :: inserted e ++ transformLines lines)
    with ([transformLine e] ++ inserted e ++ transformLines lines).
  rewrite !headerCount_app, IH. unfold headerCount at 1.
  rewrite filter_cons, decide_False
    by (rewrite transformLine_not_header; done).
  unfold inserted. by destruct (isHeader e).
Qed.

(** X3. No line of the output has a metric marker in it, the headers
    neither: the transform applied to its own output inserts no row, and the
    number of lines stays what it is. *)
Theorem formatCommentToMD_twice rawTable :
  headerCount (Split (formatCommentToMD rawTable) LF) = 0 ∧
  length (Split (formatCommentToMD (formatCommentToMD rawTable)) LF)
  = length (Split (formatCommentToMD rawTable) LF).
Proof.
  rewrite (lines_formatCommentToMD (formatCommentToMD rawTable)).
  rewrite length_transformLines, lines_formatCommentToMD.
  rewrite transformLines_headerCount. split; [done|lia].
Qed.

(** *** The cells of a row *)

Section SplitAt.
Variable c : ascii.

Lemma HasPrefix_byte x s :
  HasPrefix (String x s) (String c "") = bool_decide (x = c).
Proof.
  unfold HasPrefix.
  change (String.prefix (String c "") (String x s))
    with (if ascii_dec c x then String.prefix "" s else false).
  destruct (ascii_dec c x) as [<-|Hne].
  - rewrite bool_decide_eq_true_2 by done. by destruct s.
  - symmetry. apply bool_decide_eq_false. congruence.
Qed.

Lemma splitGo_cur_byte cur s :
  splitGo (String c "") 0 cur s =
  match splitGo (String c "") 0 "" s with
  | x :: xs => (cur +:+ x) :: xs
  | [] => []
  end.
Proof.
  revert cur. induction s as [|y s IH]; intros cur.
  - cbn. by rewrite str_app_nil_r.
  - cbn [splitGo]. rewrite HasPrefix_byte. case_bool_decide.
    + by rewrite str_app_nil_r.
    + rewrite (IH (cur +:+ String y "")), (IH ("" +:+ String y "")).
      destruct (splitGo (String c "") 0 "" s); [done|].
      by rewrite str_app_assoc.
Qed.

Lemma Split_String_byte y s :
  Split (String y s) (String c "") =
  if bool_decide (y = c) then "" :: Split s (String c "")
  else match Split s (String c "") with
       | x :: xs => String y x :: xs
       | [] => []
       end.
Proof.
  unfold Split. cbn [splitGo]. rewrite HasPrefix_byte.
  case_bool_decide; [done|]. by rewrite splitGo_cur_byte.
Qed.

Lemma Split_piece x : hasByte c x = false → Split x (String c "") = [x].
Proof.
  induction x as [|y x IH]; [done|]. cbn [hasByte].
  intros [Hy Hx]%orb_false_elim. rewrite Split_String_byte, Hy. by rewrite IH.
Qed.

Lemma Split_piece_app x r :
  hasByte c x = false →
  Split (x +:+ String c "" +:+ r) (String c "") = x :: Split r (String c "").
Proof.
  induction x as [|y x IH]; cbn [hasByte].
  - intros _. change ("" +:+ String c "" +:+ r) with (String c r).
    by rewrite Split_String_byte, bool_decide_eq_true_2.
  - intros [Hy Hx]%orb_false_elim.
    rewrite str_app_String, Split_String_byte, Hy. by rewrite IH.
Qed.

(** Splitting at a byte what was joined with it gives the pieces back,
    when the byte is in none of them. *)
Lemma Split_Join_byte fs :
  fs ≠ [] → Forall (λ f, hasByte c f = false) fs →
  Split (Join fs (String c "")) (String c "") = fs.
Proof.
  induction fs as [|x [|y rest] IH]; [done| |].
  - intros _ Hall. inversion_clear Hall. cbn. by apply Split_piece.
  - intros _ Hall. inversion_clear Hall as [|? ? Hx Hrest].
    change (Join (x :: y :: rest) (String c ""))
      with (x +:+ String c "" +:+ Join (y :: rest) (String c "")).
    rewrite Split_piece_app by done. by rewrite IH.
Qed.
End SplitAt.

(** X4. The cells of a data row are the fields of the line: where a line is
    not blank, has no metric marker, has a field, and has no pipe within its
    fields, the line the output has in its place, split at the pipes, is the
    list of the fields of the line. *)
Theorem formatCommentToMD_cells rawTable pre e post :
  Split rawTable LF = pre ++ e :: post →
  ¬ blank e → isHeader e = false → hasField e →
  Forall (λ f, hasByte "|" f = false) (Fields e) →
  ∃ row,
    Split (formatCommentToMD rawTable) LF
      !! outIndex (Split rawTable LF) (length pre) = Some row ∧
    Split row "|" = Fields e.
Proof.
  intros Hlines Hne Hhdr Hf Hpipe. exists (transformLine e). split.
  - rewrite lines_formatCommentToMD. apply transformLines_lookup.
    rewrite Hlines. by apply list_lookup_middle.
  - unfold transformLine, blank in *.
    rewrite decide_False, (headerFor_None _ Hhdr) by done.
    by apply (Split_Join_byte "|").
Qed.

Lemma formatCommentToMD_cells_witness :
  ∃ row,
    Split (formatCommentToMD sampleTable) LF
      !! outIndex (Split sampleTable LF) 1 = Some row ∧
    Split row "|" = Fields "BenchmarkX-8  120        60.2       -50.00%".
Proof.
  apply (formatCommentToMD_cells sampleTable
           ["benchmark     old ns/op  new ns/op  delta"]
           "BenchmarkX-8  120        60.2       -50.00%" [""]).
  - reflexivity.
  - unfold blank. discriminate.
  - reflexivity.
  - unfold hasField. vm_compute. discriminate.
  - vm_compute. repeat constructor.
Defined.

(** ** Remote construction as a whole *)

Lemma newGitHubEnv_Ok_steps w lg path past env past' :
  newGitHubEnv w lg path past = (Ok env, past') →
  ∃ login name number r wt bench race target,
    SetupSucceeds w path login name number r wt bench race target ∧
    (FetchContext w r = None ∨ FetchContext w r = Some NoErrAlreadyUpToDate) ∧
    Checkout w wt (pullBranch number) = None ∧
    env = EnvGitHub (constructed w lg login name number r bench race target) ∧
    past' = past ++ setupEffects w login name
              ++ [DidFetch r; DidCheckout wt (pullBranch number)].
Proof.
  unfold newGitHubEnv, newGitHubClient, GitHub_PostErr, postComment.
  unfold mbind, M_bind, mret, M_ret, getOrReturn, okOrReturn, did, deref,
    wrapping, throw.
  cbn beta iota zeta. intros H.
  repeat (case_match; simplify_eq/=);
    unfold mret, M_ret in *; simplify_eq/=;
    match goal with issue : IssueCommentEvent |- _ => destruct issue end;
    simplify_eq/=;
    do 8 eexists;
    (split; [constructor; eauto|]);
    (split;
      [first [by left
             |match goal with
              | n : ¬ ?e ≠ _, H : FetchContext _ _ = Some ?e |- _ =>
                right; rewrite H; f_equal; by apply dec_stable
              end]|]);
    (split; [eauto|]);
    (split; [reflexivity|]);
    unfold setupEffects; rewrite <- ?app_assoc; reflexivity.
Qed.





(** X7. [PostErr] of a constructed environment posts one comment, on the
    pull request the event was about: owner, repository and number are those
    of the payload, and the text ends with the link to the checks of the
    commit named by GITHUB_SHA. It returns nil when the comment is accepted
    and the API's error wrapped as "posting err" when it is not. *)
Theorem PostErr_constructed w lg path past env past' text before :
  newGitHubEnv w lg path past = (Ok env, past') →
  ∃ data login name number,
    ReadFile w path = Ok data ∧
    ParseWebHook w "issue_comment" data
    = Ok (IssueComment {| repoName := Some name; ownerLogin := Some login;
                          issueNumber := Some number |}) ∧
    let body :=
      text +:+ ". Logs: Full logs at: https://github.com/" +:+ login +:+ "/"
      +:+ name +:+ "/commit/" +:+ Getenv w "GITHUB_SHA" +:+ "/checks" in
    PostErr w env text before
    = (Ok match CreateComment w login name number body with
          | Some perr => Some (errorsWrap perr "posting err")
          | None => None
          end,
       before ++ [DidComment login name number body]).
Proof.
  intros (login & name & number & r & wt & bench & race & target
          & Hs & _ & _ & -> & _)%newGitHubEnv_Ok_steps.
  destruct Hs as [(data & Hread & Hparse) _ _ _ _ _ _ _ _ _].
  exists data, login, name, number. split; [done|]. split; [done|].
  cbn zeta. unfold PostErr. run_steps. unfold_names.
  by destruct (CreateComment _ _ _ _ _).
Qed.

Lemma PostErr_constructed_witness :
  ∃ data login name number,
    ReadFile upToDateWorld "/github/workflow/event.json" = Ok data ∧
    ParseWebHook upToDateWorld "issue_comment" data
    = Ok (IssueComment {| repoName := Some name; ownerLogin := Some login;
                          issueNumber := Some number |}) ∧
    let body :=
      "benchmarks failed" +:+ ". Logs: Full logs at: https://github.com/"
      +:+ login +:+ "/" +:+ name +:+ "/commit/"
      +:+ Getenv upToDateWorld "GITHUB_SHA" +:+ "/checks" in
    PostErr upToDateWorld
      (EnvGitHub (constructed upToDateWorld mkLogger "prometheus"
                    "prometheus" 42 sampleRepository "BenchmarkX" "-no-race"
                    "master")) "benchmarks failed" []
    = (Ok match CreateComment upToDateWorld login name number body with
          | Some perr => Some (errorsWrap perr "posting err")
          | None => None
          end,
       [] ++ [DidComment login name number body]).
Proof.
  apply (PostErr_constructed upToDateWorld mkLogger
           "/github/workflow/event.json" []
           _ [DidChdir "/github/workspace";
              DidClone "prometheus"
                "https://github.com/prometheus/prometheus.git";
              DidChdir "/github/workspace/prometheus";
              DidSetenv "GO111MODULE" "on";
              DidSetenv "CGO_ENABLED" "0";
              DidFetch sampleRepository;
              DidCheckout sampleWorktree "pull/42/head:pullrequest"]
           "benchmarks failed" []).
  vm_compute. reflexivity.
Defined.

(** X8. Whatever the world answers, the construction only adds to what was
    done before, and a comment is the last thing it does if it posts one:
    there is at most one, the fetch was attempted before it, and the
    construction then returns an error. *)
Theorem newGitHubEnv_comment_discipline w lg path past :
  ∃ added,
    snd (newGitHubEnv w lg path past) = past ++ added ∧
    ∀ i ev, added !! i = Some ev → isComment ev = true →
      S i = length added ∧
      (∃ j r, j < i ∧ added !! j = Some (DidFetch r)) ∧
      ∃ err, fst (newGitHubEnv w lg path past) = Err err.
Proof.
  run_steps.
  repeat (case_match; simplify_eq/=);
    unfold mret, M_ret in *; simplify_eq/=;
    (eexists; split; [rewrite <- ?app_assoc; cbn [app]; try reflexivity;
                      symmetry; apply app_nil_r|]);
    intros i ev Hlook Hcomment;
    repeat (destruct i as [|i]; simplify_eq/=);
    (split; [done|]); (split; [|by eexists]);
    eexists 5, _; (split; [lia|reflexivity]).
Qed.

Lemma newGitHubEnv_comment_discipline_witness :
  ∃ err,
    fst (newGitHubEnv fetchFailsWorld mkLogger "/github/workflow/event.json" [])
    = Err err.
Proof.
  destruct (newGitHubEnv_comment_discipline fetchFailsWorld mkLogger
              "/github/workflow/event.json" []) as (added & Hadded & Hlast).
  vm_compute in Hadded. subst added.
  refine (proj2 (proj2 (Hlast 6 _ eq_refl eq_refl))).
Defined.

(** X9. The construction invents one error only, the one for an event that
    is not an issue comment. Any other error it returns has as its cause the
    cause of an error that reading a file, parsing the event, changing
    directory, setting a variable, the clone, the worktree, the fetch or the
    checkout answered: wrapping keeps the cause, and the error of posting a
    comment is never the cause. *)
Theorem newGitHubEnv_error_cause w lg path past err :
  fst (newGitHubEnv w lg path past) = Err err →
  err = errorsNew "only issue_comment event is supported" ∨
  ∃ x, answered w x ∧ Cause err = Cause x.
Proof.
  run_steps. unfold answered.
  repeat (case_match; simplify_eq/=);
    unfold mret, M_ret, throw in *; simplify_eq/=;
    intros [= <-];
    first
      [ by left
      | right;
        match goal with
        | H : _ = Err ?x |- _ => exists x; split; [eauto 12|reflexivity]
        | H : _ = Some ?x |- _ => exists x; split; [eauto 12|reflexivity]
        end ].
Qed.

Lemma newGitHubEnv_error_cause_witness :
  bothErrors (errorsNew "authentication required")
             (errorsNew "401 Bad credentials")
  = errorsNew "only issue_comment event is supported" ∨
  ∃ x, answered fetchFailsWorld x ∧
       Cause (bothErrors (errorsNew "authentication required")
                         (errorsNew "401 Bad credentials")) = Cause x.
Proof.
  apply (newGitHubEnv_error_cause fetchFailsWorld mkLogger
           "/github/workflow/event.json" []).
  vm_compute. reflexivity.
Defined.

(** X10. A payload that lacks the name of the repository or the login of
    its owner makes the construction panic before anything is cloned; a
    payload that lacks only the number of the issue makes it panic after
    the clone was made. *)
Theorem newGitHubEnv_nil_payload w lg path past data issue :
  ReadFile w path = Ok data →
  ParseWebHook w "issue_comment" data = Ok (IssueComment issue) →
  Chdir w (Getenv w "GITHUB_WORKSPACE") = None →
  (repoName issue = None ∨ ownerLogin issue = None →
     newGitHubEnv w lg path past
     = (Panic, past ++ [DidChdir (Getenv w "GITHUB_WORKSPACE")])) ∧
  (∀ name login r,
     repoName issue = Some name → ownerLogin issue = Some login →
     issueNumber issue = None →
     PlainCloneContext w name (cloneURL login name) = Ok r →
     newGitHubEnv w lg path past
     = (Panic, past ++ [DidChdir (Getenv w "GITHUB_WORKSPACE");
                        DidClone name (cloneURL login name)])).
Proof.
  intros Hread Hparse Hws. split.
  - intros Hnil. run_steps. rewrite Hread, Hparse; cbn; rewrite Hws; cbn.
    destruct (repoName issue) as [name|]; cbn; [|done].
    destruct Hnil as [? | ->]; done.
  - intros name login r Hname Hlogin Hnumber Hclone. run_steps.
    rewrite Hread, Hparse; cbn; rewrite Hws; cbn.
    rewrite Hname; cbn; rewrite Hlogin; cbn; rewrite Hclone; cbn.
    rewrite Hnumber; cbn. tidy_effects.
Qed.

Lemma newGitHubEnv_nil_payload_witness :
  newGitHubEnv noNumberWorld mkLogger "/github/workflow/event.json" []
  = (Panic, [] ++ [DidChdir (Getenv noNumberWorld "GITHUB_WORKSPACE");
                   DidClone "prometheus" (cloneURL "prometheus" "prometheus")]).
Proof.
  apply (proj2 (newGitHubEnv_nil_payload noNumberWorld mkLogger
                  "/github/workflow/event.json" [] "{}"
                  {| repoName := Some "prometheus";
                     ownerLogin := Some "prometheus";
                     issueNumber := None |} eq_refl eq_refl eq_refl)
           "prometheus" "prometheus" sampleRepository);
    reflexivity.
Defined.

(** X11. [PostResults] of a Remote environment posts one comment on the
    client's pull request; its lines are the lines of the rendered table
    put through the markdown transform, and the answer of the API is
    returned as it is, a failure not being wrapped. *)
Theorem GitHub_PostResults_comment {BenchCmp : Type}
    (Render : list BenchCmp → bool → bool → string → string)
    w g (cmps : list BenchCmp) before :
  ∃ body,
    GitHub_PostResults Render w g cmps before
    = (Ok (CreateComment w (owner (client g)) (repo (client g))
             (prNumber (client g)) body),
       before ++ [DidComment (owner (client g)) (repo (client g))
                    (prNumber (client g)) body]) ∧
    Split body LF
    = transformLines
        (Split (Render cmps false false
                  (compareTarget (GitHub_environment g))) LF).
Proof.
  eexists. split; [reflexivity|]. apply lines_formatCommentToMD.
Qed.

(** ** The cluster operations *)

Lemma createEach_all p clusterName files made :
  Forall (λ d, Kind.Create p clusterName d = None) files →
  Kind.createEach p clusterName files made
  = (Kind.Returned None, made ++ (Kind.Created clusterName <$> files)).
Proof.
  intros Hall. revert made.
  induction Hall as [|d files Hd _ IH]; intros made; cbn.
  - by rewrite app_nil_r.
  - rewrite Hd, IH, <- app_assoc. done.
Qed.

Lemma createEach_first_failure p clusterName pre d post err made :
  Forall (λ d, Kind.Create p clusterName d = None) pre →
  Kind.Create p clusterName d = Some err →
  Kind.createEach p clusterName (pre ++ d :: post) made
  = (Kind.Fatal ("creating cluster err:" +:+ Error err),
     made ++ (Kind.Created clusterName <$> pre ++ [d])).
Proof.
  intros Hpre Hd. revert made.
  induction Hpre as [|x pre Hx _ IH]; intros made; cbn.
  - by rewrite Hd.
  - rewrite Hx, IH, <- app_assoc. done.
Qed.

(** X12. Without the variable CLUSTER_NAME, [ClusterCreate] and
    [ClusterDelete] return the error that names the missing variable and
    call the provider not once; with the variable set, to the empty name
    even, neither ever returns an error: a failure of the provider ends the
    process instead. *)
Theorem Cluster_missing_name p c made :
  (Kind.DeploymentVars c !! "CLUSTER_NAME" = None →
     Kind.ClusterCreate p c made
     = (Kind.Returned
          (Some (errorsNew "missing required CLUSTER_NAME variable")), made) ∧
     Kind.ClusterDelete p c made
     = (Kind.Returned
          (Some (errorsNew "missing required CLUSTER_NAME variable")), made)) ∧
  (is_Some (Kind.DeploymentVars c !! "CLUSTER_NAME") →
     (∀ err, fst (Kind.ClusterCreate p c made) ≠ Kind.Returned (Some err)) ∧
     (∀ err, fst (Kind.ClusterDelete p c made) ≠ Kind.Returned (Some err))).
Proof.
  unfold Kind.ClusterCreate, Kind.ClusterDelete. split.
  - by intros ->.
  - intros [name ->]. split; intros err.
    + generalize (Kind.DeploymentFiles c) made.
      intros files. induction files as [|d files IH]; intros made'; cbn.
      * done.
      * destruct (Kind.Create p name d); [done|apply IH].
    + by destruct (Kind.Delete p name _).
Qed.

Lemma Cluster_missing_name_witness :
  (Kind.ClusterCreate (Kind.refusing "b.yaml")
     {| Kind.DeploymentFiles := ["a.yaml"]; Kind.DeploymentVars := ∅ |} []
   = (Kind.Returned
        (Some (errorsNew "missing required CLUSTER_NAME variable")), [])) ∧
  (∀ err, fst (Kind.ClusterCreate (Kind.refusing "b.yaml") Kind.sampleKIND [])
          ≠ Kind.Returned (Some err)).
Proof.
  split.
  - apply (proj1 (Cluster_missing_name (Kind.refusing "b.yaml")
      {| Kind.DeploymentFiles := ["a.yaml"]; Kind.DeploymentVars := ∅ |} [])).
    reflexivity.
  - apply (proj2 (Cluster_missing_name (Kind.refusing "b.yaml")
      Kind.sampleKIND [])).
    exists "kind-1". reflexivity.
Defined.

(** X13. With CLUSTER_NAME set, [ClusterCreate] creates one cluster of that
    name for each deployment file, in the order of the files. When every
    creation succeeds it returns nil; at the first one that fails the
    process ends with the message of that failure, and the files after it
    are not touched. *)
Theorem ClusterCreate_in_order p c clusterName made :
  Kind.DeploymentVars c !! "CLUSTER_NAME" = Some clusterName →
  (Forall (λ d, Kind.Create p clusterName d = None) (Kind.DeploymentFiles c) →
     Kind.ClusterCreate p c made
     = (Kind.Returned None,
        made ++ (Kind.Created clusterName <$> Kind.DeploymentFiles c))) ∧
  (∀ pre d post err,
     Kind.DeploymentFiles c = pre ++ d :: post →
     Forall (λ d, Kind.Create p clusterName d = None) pre →
     Kind.Create p clusterName d = Some err →
     Kind.ClusterCreate p c made
     = (Kind.Fatal ("creating cluster err:" +:+ Error err),
        made ++ (Kind.Created clusterName <$> pre ++ [d]))).
Proof.
  intros Hname. unfold Kind.ClusterCreate. rewrite Hname. split.
  - apply createEach_all.
  - intros pre d post err ->. apply createEach_first_failure.
Qed.

Lemma ClusterCreate_in_order_witness :
  Kind.ClusterCreate (Kind.refusing "b.yaml") Kind.sampleKIND []
  = (Kind.Fatal ("creating cluster err:" +:+ Error (errorsNew "invalid config")),
     [] ++ (Kind.Created "kind-1" <$> ["a.yaml"] ++ ["b.yaml"])).
Proof.
  apply (proj2 (ClusterCreate_in_order (Kind.refusing "b.yaml")
                  Kind.sampleKIND "kind-1" [] eq_refl)
           ["a.yaml"] "b.yaml" ["c.yaml"] (errorsNew "invalid config")).
  - reflexivity.
  - repeat constructor.
  - reflexivity.
Defined.
